(** * pysqueezebox: the LMS JSON-RPC client, embedded and verified

    A shallow embedding of [pysqueezebox/pysqueezebox.py]: the [Server]
    class (one JSON-RPC exchange per call, device enumeration and lookup)
    and the [Player] class (typed properties over a cached status
    snapshot, command wrappers, the compound playlist loader).

    Layout:
    - [Py]      the fragment of Python the module relies on: JSON values,
                exceptions, truthiness, [int]/[float]/[str], subscripting;
    - [Lms]     the effects: the HTTP session as an oracle, the log, the
                requests sent, the store of list objects;
    - [Server], [Player]   the two classes, method by method;
    - [Queue]   a session whose server carries out the [insert] command;
    - [Sample]  a concrete session and concrete built-ins, to run the
                definitions on examples;
    - the properties of the client, one section per topic. *)

From Stdlib Require Import ZArith String Ascii List.
From Stdlib Require Import Floats.SpecFloat.
From stdpp Require Import base option list gmap strings fin_maps pretty.

Set Warnings "-register-all".
Local Open Scope string_scope.
Local Open Scope Z_scope.
(* [++] is the append of lists; strings are appended with [+:+] *)
Disable Notation "_ ++ _" : string_scope.

(* ===================================================================== *)
(** * The Python fragment *)
(* ===================================================================== *)

Module Py.

(** Exceptions that the module raises or meets.  [TimeoutError] is
    [asyncio.TimeoutError]; [ClientError] stands for [aiohttp.ClientError]
    and its subclasses. *)
Inductive exn : Type :=
| KeyError | IndexError | TypeError | ValueError | AttributeError
| OverflowError | RuntimeError | TimeoutError | ClientError.

Global Instance exn_eq_dec : EqDecision exn.
Proof. solve_decision. Defined.

(** The outcome of evaluating an expression: a value or a raised exception. *)
Inductive res (A : Type) : Type :=
| Ret (a : A)
| Raise (e : exn).
Global Arguments Ret {A} a.
Global Arguments Raise {A} e.

Definition res_bind {A B} (r : res A) (k : A → res B) : res B :=
  match r with
  | Ret a => k a
  | Raise e => Raise e
  end.

Global Instance res_ret : MRet res := λ A a, Ret a.
Global Instance res_mbind : MBind res := λ A B k r, res_bind r k.
Global Instance res_fmap : FMap res := λ A B f r, res_bind r (λ a, Ret (f a)).

(** What [json] decoding produces: [None], booleans, integers, binary64
    floats, strings, lists and dicts with string keys. *)
Inductive pyval : Type :=
| VNone
| VBool (b : bool)
| VInt (n : Z)
| VFloat (f : spec_float)
| VStr (s : string)
| VList (l : list pyval)
| VDict (d : gmap string pyval).

(** Built-ins of the language and of its standard library whose full
    behaviour is not needed: they are parameters of the development. *)
Class Builtins : Type := {
  (** [float(s)] on a string; [None] is [ValueError] *)
  float_of_str : string → option spec_float;
  (** [int(s)] on a string; [None] is [ValueError] *)
  int_of_str : string → option Z;
  (** [str(v)] on floats, lists and dicts *)
  repr : pyval → string;
  (** [s.lower()] *)
  lower : string → string;
  (** [d.update(v)] for a non-mapping iterable [v] (a sequence of pairs):
      the dict as the call leaves it, and whether it raised *)
  update_pairs : gmap string pyval → pyval → gmap string pyval * res unit;
  (** [urllib.parse.urljoin]; [None] is [ValueError], which splitting the
      base raises on a host with an unmatched bracket *)
  urljoin : string → string → option string
}.

(** ** Truthiness: [bool(v)], as [if v] and [not v] use it *)
Definition truthy (v : pyval) : bool :=
  match v with
  | VNone => false
  | VBool b => b
  | VInt n => negb (n =? 0)
  | VFloat (S754_zero _) => false
  | VFloat _ => true
  | VStr s => negb (String.eqb s "")
  | VList l => negb (Nat.eqb (length l) 0)
  | VDict d => negb (Nat.eqb (size d) 0)
  end.

(** ** Numbers *)

Definition prec : Z := 53.
Definition emax : Z := 1024.

(** [float(n)] on an integer: round to nearest even on 53 bits,
    [OverflowError] beyond the largest double. *)
Definition float_of_Z (n : Z) : res spec_float :=
  match binary_normalize prec emax n 0 false with
  | S754_infinity _ => Raise OverflowError
  | f => Ret f
  end.

Definition Z_of_bool (b : bool) : Z := if b then 1 else 0.

(** [float(v)] *)
Definition float `{Builtins} (v : pyval) : res spec_float :=
  match v with
  | VInt n => float_of_Z n
  | VBool b => float_of_Z (Z_of_bool b)
  | VFloat f => Ret f
  | VStr s =>
      match float_of_str s with
      | Some f => Ret f
      | None => Raise ValueError
      end
  | VNone | VList _ | VDict _ => Raise TypeError
  end.

(** [int(f)] on a float: truncation towards zero. *)
Definition trunc (f : spec_float) : res Z :=
  match f with
  | S754_zero _ => Ret 0
  | S754_infinity _ => Raise OverflowError
  | S754_nan => Raise ValueError
  | S754_finite s m e =>
      let a := Z.shiftl (Z.pos m) e in
      Ret (if s then - a else a)
  end.

(** [int(v)] *)
Definition int `{Builtins} (v : pyval) : res Z :=
  match v with
  | VInt n => Ret n
  | VBool b => Ret (Z_of_bool b)
  | VFloat f => trunc f
  | VStr s =>
      match int_of_str s with
      | Some n => Ret n
      | None => Raise ValueError
      end
  | VNone | VList _ | VDict _ => Raise TypeError
  end.

(** [f == n] for a float and an integer: exact, no rounding of [n]. *)
Definition float_eq_Z (f : spec_float) (n : Z) : bool :=
  match f with
  | S754_zero _ => n =? 0
  | S754_finite s m e =>
      let v := if s then Z.neg m else Z.pos m in
      if 0 <=? e then v * 2 ^ e =? n else v =? n * 2 ^ (- e)
  | S754_infinity _ | S754_nan => false
  end.

(** [v == n] for an integer literal [n] *)
Definition eq_int (v : pyval) (n : Z) : bool :=
  match v with
  | VInt m => m =? n
  | VBool b => Z_of_bool b =? n
  | VFloat f => float_eq_Z f n
  | VNone | VStr _ | VList _ | VDict _ => false
  end.

(** [v == s] for a string literal [s] *)
Definition eq_str (v : pyval) (s : string) : bool :=
  match v with
  | VStr t => String.eqb t s
  | _ => false
  end.

(** ** Strings *)

(** [str(v)] *)
Definition str `{Builtins} (v : pyval) : string :=
  match v with
  | VStr s => s
  | VInt n => pretty n
  | VBool true => "True"
  | VBool false => "False"
  | VNone => "None"
  | VFloat _ | VList _ | VDict _ => repr v
  end.

(** [s.startswith(p)] *)
Definition startswith (s p : string) : bool := String.prefix p s.

(** ** Subscripting and membership *)

(** A Python index into a sequence of length [len]: negative indices
    count from the end. *)
Definition norm_index (len : nat) (i : Z) : option nat :=
  if 0 <=? i then
    if i <? Z.of_nat len then Some (Z.to_nat i) else None
  else
    if 0 <=? i + Z.of_nat len then Some (Z.to_nat (i + Z.of_nat len)) else None.

(** [l[i]] on a list, for an integer [i] *)
Definition list_getitem {A} (l : list A) (i : Z) : res A :=
  match norm_index (length l) i with
  | Some n =>
      match l !! n with
      | Some x => Ret x
      | None => Raise IndexError
      end
  | None => Raise IndexError
  end.

(** [s[i]] on a string, for an integer [i] *)
Definition str_getitem (s : string) (i : Z) : res string :=
  match norm_index (String.length s) i with
  | Some n =>
      match String.get n s with
      | Some c => Ret (String c EmptyString)
      | None => Raise IndexError
      end
  | None => Raise IndexError
  end.

(** [v[k]] *)
Definition getitem (v k : pyval) : res pyval :=
  match v with
  | VDict d =>
      match k with
      | VStr s =>
          match d !! s with
          | Some x => Ret x
          | None => Raise KeyError
          end
      | VList _ | VDict _ => Raise TypeError
      | VNone | VBool _ | VInt _ | VFloat _ => Raise KeyError
      end
  | VList l =>
      match k with
      | VInt i => list_getitem l i
      | VBool b => list_getitem l (Z_of_bool b)
      | _ => Raise TypeError
      end
  | VStr s =>
      match k with
      | VInt i => VStr <$> str_getitem s i
      | VBool b => VStr <$> str_getitem s (Z_of_bool b)
      | _ => Raise TypeError
      end
  | VNone | VBool _ | VInt _ | VFloat _ => Raise TypeError
  end.

(** [tbl[k]] for a module-level table of strings such as [SHUFFLE_MODE] *)
Definition table_getitem (tbl : list string) (k : pyval) : res pyval :=
  match k with
  | VInt i => VStr <$> list_getitem tbl i
  | VBool b => VStr <$> list_getitem tbl (Z_of_bool b)
  | _ => Raise TypeError
  end.

(** [tbl.index(v)] when [v in tbl], for a table of strings *)
Fixpoint table_index (tbl : list string) (v : pyval) : option Z :=
  match tbl with
  | [] => None
  | s :: tbl' =>
      if eq_str v s then Some 0 else Z.succ <$> table_index tbl' v
  end.

(** [k in v] for a string literal [k] *)
Definition contains (v : pyval) (k : string) : res bool :=
  match v with
  | VDict d => Ret (bool_decide (is_Some (d !! k)))
  | VList l => Ret (existsb (λ x, eq_str x k) l)
  | VStr s =>
      Ret (match String.index 0 k s with Some _ => true | None => false end)
  | VNone | VBool _ | VInt _ | VFloat _ => Raise TypeError
  end.

(** ** Dicts *)

(** [d.update(v)]: a mapping overrides key by key; a value that is not
    iterable raises [TypeError] and leaves [d] as it is. *)
Definition dict_update `{Builtins}
    (d : gmap string pyval) (v : pyval) : gmap string pyval * res unit :=
  match v with
  | VDict d' => (d' ∪ d, Ret ())
  | VStr _ | VList _ => update_pairs d v
  | VNone | VBool _ | VInt _ | VFloat _ => (d, Raise TypeError)
  end.

End Py.

(* ===================================================================== *)
(** * Effects: the HTTP session, the log, the store *)
(* ===================================================================== *)

Module Lms.
Import Py.

(** An [aiohttp.BasicAuth] object *)
Record basic_auth : Type := Credentials {
  login : string;
  password : string
}.

(** [aiohttp.BasicAuth(login, password)]: the constructor raises
    [ValueError] on a password that is [None] and on a login that holds a
    colon. *)
Definition BasicAuth (login : string) (password : option string)
    : res basic_auth :=
  match password with
  | None => Raise ValueError
  | Some password =>
      match String.index 0 ":" login with
      | Some _ => Raise ValueError
      | None => Ret (Credentials login password)
      end
  end.

(** One [session.post(url, data=data, auth=auth)].  [req_data] is the
    value handed to [json.dumps]. *)
Record request : Type := Request {
  req_url : string;
  req_data : pyval;
  req_auth : option basic_auth
}.

(** What [await response.json()] gives *)
Inductive body : Type :=
| BodyJson (data : pyval)
| BodyRaise (e : exn).

(** What [await session.post(...)] gives *)
Inductive reply : Type :=
| PostRaise (e : exn)
| Response (status : Z) (json : body).

(** The [aiohttp.ClientSession] together with the server behind it: an
    oracle with a state of its own. *)
Class Session : Type := {
  world : Type;
  post : world → request → reply * world
}.

Inductive level : Type := DEBUG | ERROR.

(** The data of the two classes. *)
Record server : Type := Server {
  host : string;
  port : Z;
  _username : option string;
  _password : option string
}.

Record player : Type := Player {
  _lms : server;
  _id : pyval;
  _name : pyval;
  _status : gmap string pyval
}.

(** Addresses of list objects *)
Definition loc : Type := nat.

Section Monad.
Context `{Session}.

(** What a coroutine can read and change: the network, the requests
    sent so far (oldest first), the records of [_LOGGER] (oldest first,
    by level and format string), the list objects. *)
Record state : Type := State {
  net : world;
  sent : list request;
  logs : list (level * string);
  heap : gmap loc (list pyval)
}.

Definition M (A : Type) : Type := state → res A * state.

Definition ret {A} (a : A) : M A := λ s, (Ret a, s).
Definition raise {A} (e : exn) : M A := λ s, (Raise e, s).
Definition bind {A B} (m : M A) (k : A → M B) : M B :=
  λ s, match m s with
       | (Ret a, s') => k a s'
       | (Raise e, s') => (Raise e, s')
       end.

(** An expression without effects *)
Definition lift {A} (r : res A) : M A := λ s, (r, s).

(** [try: m  except <h>: ...]: the handler chooses the exceptions it
    takes *)
Definition try_except {A} (m : M A) (h : exn → option (M A)) : M A :=
  λ s, match m s with
       | (Ret a, s') => (Ret a, s')
       | (Raise e, s') =>
           match h e with
           | Some k => k s'
           | None => (Raise e, s')
           end
       end.

Definition log (l : level) (fmt : string) : M unit :=
  λ s, (Ret (), State (net s) (sent s) (logs s ++ [(l, fmt)]) (heap s)).

(** [await self._session.post(url, data=data, auth=auth)] *)
Definition session_post (rq : request) : M (Z * body) :=
  λ s, let '(r, w) := post (net s) rq in
       let s' := State w (sent s ++ [rq]) (logs s) (heap s) in
       match r with
       | PostRaise e => (Raise e, s')
       | Response status b => (Ret (status, b), s')
       end.

(** [await response.json()] *)
Definition response_json (b : body) : M pyval :=
  match b with
  | BodyJson data => ret data
  | BodyRaise e => raise e
  end.

(** [list(ref)]: a new list object with the same elements *)
Definition list_copy (ref : loc) : M loc :=
  λ s, match heap s !! ref with
       | Some xs =>
           let l := fresh (dom (heap s)) in
           (Ret l, State (net s) (sent s) (logs s) (<[l := xs]> (heap s)))
       | None => (Raise TypeError, s)
       end.

(** The elements of the list object, as an iteration sees them *)
Definition list_read (ref : loc) : M (list pyval) :=
  λ s, match heap s !! ref with
       | Some xs => (Ret xs, s)
       | None => (Raise TypeError, s)
       end.

(** [ref.pop(0)] *)
Definition list_pop0 (ref : loc) : M pyval :=
  λ s, match heap s !! ref with
       | Some (x :: xs) =>
           (Ret x, State (net s) (sent s) (logs s) (<[ref := xs]> (heap s)))
       | Some [] => (Raise IndexError, s)
       | None => (Raise TypeError, s)
       end.

(** [for x in xs: acc = body(acc, x)] *)
Fixpoint for_each {A B} (body : B → A → M B) (acc : B) (xs : list A) : M B :=
  match xs with
  | [] => ret acc
  | x :: xs' => bind (body acc x) (λ acc', for_each body acc' xs')
  end.

End Monad.

Global Instance M_ret `{Session} : MRet M := @ret _.
Global Instance M_bind `{Session} : MBind M := λ A B k m, bind m k.

(** How a sequence runs, from how its first step runs *)
Section Run.
Context `{Session}.

Lemma bind_ret_run {A B} (m : M A) (k : A → M B) s a s' :
  m s = (Ret a, s') → (x ← m; k x) s = k a s'.
Proof. intros Hm. unfold mbind, M_bind, bind. by rewrite Hm. Qed.

Lemma bind_raise_run {A B} (m : M A) (k : A → M B) s e s' :
  m s = (Raise e, s') → (x ← m; k x) s = (Raise e, s').
Proof. intros Hm. unfold mbind, M_bind, bind. by rewrite Hm. Qed.

Lemma bind_lift {A B} (r : res A) (k : A → M B) s :
  (x ← lift r; k x) s =
    match r with
    | Ret a => k a s
    | Raise e => (Raise e, s)
    end.
Proof. unfold mbind, M_bind, bind, lift. by destruct r. Qed.

Lemma bind_mret {A B} (a : A) (k : A → M B) s :
  (x ← mret a; k x) s = k a s.
Proof. reflexivity. Qed.

Lemma bind_assoc_run {A B C} (m : M A) (k : A → M B) (k' : B → M C) s :
  (y ← (x ← m; k x); k' y) s = (x ← m; y ← k x; k' y) s.
Proof. unfold mbind, M_bind, bind. by destruct (m s) as [[a | e] s']. Qed.

End Run.

End Lms.

(* ===================================================================== *)
(** * class Server *)
(* ===================================================================== *)

Module Server.
Import Py Lms.

Definition DEFAULT_PORT : Z := 9000.

(** Seconds allowed to one exchange; when they run out the session
    raises [TimeoutError]. *)
Definition TIMEOUT : Z := 10.

Section Server.
Context `{Builtins} `{Session}.

(** [Player.__init__(lms, player_id, name, status=None)], which the
    methods of [Server] call. *)
Definition Player_init (lms : server) (player_id name : pyval)
    (status : option (gmap string pyval)) : M player :=
  let st := match status with
            | Some d => if truthy (VDict d) then d else ∅
            | None => ∅
            end in
  log DEBUG "Creating SqueezeBox object: %s, %s";;
  mret (Player lms player_id name st).

(** The JSON-RPC envelope of [async_query] *)
Definition envelope (player : pyval) (command : list pyval) : pyval :=
  VDict (<["id" := VStr "1"]>
        (<["method" := VStr "slim.request"]>
        (<["params" := VList [player; VList command]]> ∅))).

(** [None if self._username is None else
    aiohttp.BasicAuth(self._username, self._password)] *)
Definition auth_of (self : server) : res (option basic_auth) :=
  match _username self with
  | None => Ret None
  | Some u => Some <$> BasicAuth u (_password self)
  end.

(** Whether the credentials of the server make a [BasicAuth] object *)
Definition credentials_ok (self : server) : bool :=
  match auth_of self with
  | Ret _ => true
  | Raise _ => false
  end.

Definition url_of (self : server) : string :=
  "http://" +:+ host self +:+ ":" +:+ pretty (port self) +:+ "/jsonrpc.js".

(** [except (asyncio.TimeoutError, aiohttp.ClientError)] *)
Definition communication_error (e : exn) : bool :=
  match e with
  | TimeoutError | ClientError => true
  | _ => false
  end.

(** [async def async_query(self, *command, player="")].  The [auth]
    object is built first, outside of any [try].  The first [try] block
    either returns from the function ([inl]) or leaves the decoded body in
    [data] ([inr]). *)
Definition async_query (self : server) (command : list pyval)
    (player : pyval) : M pyval :=
  auth ← lift (auth_of self);
  let url := url_of self in
  let data := envelope player command in
  log DEBUG "URL: %s Data: %s";;
  r ← try_except
        ('(status, b) ← session_post (Request url data auth);
         if negb (status =? 200) then
           log ERROR "Query failed, response code: %s Full message: %s";;
           mret (inl (VBool false))
         else
           data ← response_json b;
           mret (inr data))
        (λ e, if communication_error e then
                Some (log ERROR "Failed communicating with LMS: %s";;
                      mret (inl (VBool false)))
              else None);
  match r with
  | inl v => mret v
  | inr data =>
      try_except
        (result ← lift (getitem data (VStr "result"));
         if negb (truthy result) then
           (* a successful command will return an empty result *)
           mret (VBool true)
         else mret result)
        (λ e, match e with
              | AttributeError =>
                  Some (log ERROR "Received invalid response: %s";;
                        mret VNone)
              | _ => None
              end)
  end.

(** [data is False] *)
Definition is_False (v : pyval) : bool :=
  match v with
  | VBool false => true
  | _ => false
  end.

(** [v.get(k, default)]: only a dict has the method *)
Definition get_method (v : pyval) (k : string) (dflt : pyval) : res pyval :=
  match v with
  | VDict d => Ret (default dflt (d !! k))
  | _ => Raise AttributeError
  end.

(** The elements a [for] loop draws from [v].  The keys of a dict come
    in the order of the map. *)
Definition iter (v : pyval) : res (list pyval) :=
  match v with
  | VList l => Ret l
  | VStr s => Ret ((λ c, VStr (String c EmptyString)) <$> list_ascii_of_string s)
  | VDict d => Ret ((λ kv, VStr kv.1) <$> map_to_list d)
  | VNone | VBool _ | VInt _ | VFloat _ => Raise TypeError
  end.

(** [async def async_get_players(self)]: [None] or the list of players *)
Definition async_get_players (self : server) : M (option (list player)) :=
  data ← async_query self [VStr "players"; VStr "status"] (VStr "");
  if is_False data then mret None
  else
    loop ← lift (roster ← get_method data "players_loop" (VList []);
                 iter roster);
    players ← for_each
      (λ players entry,
         player_id ← lift (getitem entry (VStr "playerid"));
         name ← lift (getitem entry (VStr "name"));
         p ← Player_init self player_id name None;
         mret (players ++ [p]))
      [] loop;
    mret (Some players).

(** Attribute lookup [self.<name>] followed by a call without
    arguments, for a coroutine that yields players.  The class defines
    [__init__], [async_get_players], [async_get_player] and
    [async_query], and its instances carry [host], [port], [_session],
    [_username] and [_password]: any other name is an
    [AttributeError]. *)
Definition players_method (self : server) (name : string)
    : res (M (option (list player))) :=
  if String.eqb name "async_get_players" then Ret (async_get_players self)
  else Raise AttributeError.

(** [v.lower()]: a method of strings *)
Definition lower_method (v : pyval) : res string :=
  match v with
  | VStr s => Ret (lower s)
  | _ => Raise AttributeError
  end.

(** The loop of the lookup by name: the first player whose name
    matches *)
Fixpoint first_match (name : pyval) (players : list player)
    : res (option player) :=
  match players with
  | [] => Ret None
  | p :: players' =>
      a ← lower_method name;
      b ← lower_method (_name p);
      if String.eqb a b then Ret (Some p) else first_match name players'
  end.

(** [async def async_get_player(self, player_id=None, name=None)] *)
Definition async_get_player (self : server) (player_id name : pyval)
    : M (option player) :=
  if truthy player_id then
    data ← async_query self [VStr "status"] player_id;
    found ← (if truthy data then
               name ← lift (getitem data (VStr "player_name"));
               if truthy name then
                 p ← Player_init self player_id name None;
                 mret (Some p)
               else mret None
             else mret None);
    match found with
    | Some p => mret (Some p)
    | None =>
        log DEBUG "Unable to find player with id: %s";;
        mret None
    end
  else if truthy name then
    get_players ← lift (players_method self "get_players");
    players ← get_players;
    found ← lift (match players with
                  | Some ps => first_match name ps
                  | None => Raise TypeError
                  end);
    match found with
    | Some p => mret (Some p)
    | None =>
        log DEBUG "Unable to find player with name: %s";;
        mret None
    end
  else
    log ERROR "get_player called without name or player_id";;
    mret None.

End Server.
End Server.

(* ===================================================================== *)
(** * class Player *)
(* ===================================================================== *)

Module Player.
Import Py Lms.

Definition REPEAT_MODE : list string := ["none"; "song"; "playlist"].
Definition SHUFFLE_MODE : list string := ["none"; "song"; "album"].

(** ** Properties: functions of the object, no effects *)

Section Properties.
Context `{Builtins}.

(** [k in self._status] *)
Definition has (self : player) (k : string) : bool :=
  bool_decide (is_Some (_status self !! k)).

(** [self._status[k]] *)
Definition item (self : player) (k : string) : res pyval :=
  match _status self !! k with
  | Some v => Ret v
  | None => Raise KeyError
  end.

(** [try: r  except KeyError: pass], then [k] *)
Definition except_KeyError {A} (r k : res A) : res A :=
  match r with
  | Raise KeyError => k
  | _ => r
  end.

Definition name (self : player) : res pyval := Ret (_name self).

Definition player_id (self : player) : res pyval := Ret (_id self).

Definition power (self : player) : res pyval :=
  if has self "power" then
    v ← item self "power"; Ret (VBool (eq_int v 1))
  else Ret VNone.

Definition mode (self : player) : res pyval :=
  if has self "mode" then item self "mode" else Ret VNone.

Definition volume (self : player) : res pyval :=
  if has self "mixer volume" then
    v ← item self "mixer volume";
    f ← float v;
    n ← trunc f;
    Ret (VInt (Z.abs n))
  else Ret VNone.

Definition muting (self : player) : res pyval :=
  if has self "mixer volume" then
    v ← item self "mixer volume";
    Ret (VBool (startswith (str v) "-"))
  else Ret VNone.

Definition current_title (self : player) : res pyval :=
  if has self "current_title" then item self "current_title" else Ret VNone.

Definition duration (self : player) : res pyval :=
  if has self "duration" then
    v ← item self "duration";
    f ← float v;
    n ← trunc f;
    Ret (VInt n)
  else Ret VNone.

Definition time (self : player) : res pyval :=
  if has self "time" then
    v ← item self "time";
    f ← float v;
    n ← trunc f;
    Ret (VInt n)
  else Ret VNone.

(** [str.format] of a field that may be [None] *)
Definition format_field (o : option string) : string := default "None" o.

Definition image_url (self : player) : res pyval :=
  let image_url := "/music/current/cover.jpg?player=" +:+ str (_id self) in
  let lms := _lms self in
  let base_url :=
    if truthy (from_option VStr VNone (_username lms)) then
      "http://" +:+ format_field (_username lms) +:+ ":"
        +:+ format_field (_password lms) +:+ "@"
        +:+ host lms +:+ ":" +:+ pretty (port lms) +:+ "/"
    else
      "http://" +:+ host lms +:+ ":" +:+ pretty (port lms) +:+ "/" in
  match urljoin base_url image_url with
  | Some url => Ret (VStr url)
  | None => Raise ValueError
  end.

Definition current_track (self : player) : res pyval :=
  except_KeyError
    (v ← item self "playlist_cur_index";
     cur_index ← int v;
     loop ← item self "playlist_loop";
     getitem loop (VInt cur_index))
    (except_KeyError (item self "remoteMeta") (Ret VNone)).

(** The pattern of [title], [artist], [album] and [url]:
    [if k in self.current_track: return self.current_track[k]] *)
Definition track_field (self : player) (k : string) : res pyval :=
  track ← current_track self;
  b ← contains track k;
  if b : bool then
    track ← current_track self;
    getitem track (VStr k)
  else Ret VNone.

Definition title (self : player) : res pyval := track_field self "title".
Definition artist (self : player) : res pyval := track_field self "artist".
Definition album (self : player) : res pyval := track_field self "album".

Definition shuffle (self : player) : res pyval :=
  if has self "playlist shuffle" then
    v ← item self "playlist shuffle"; table_getitem SHUFFLE_MODE v
  else Ret VNone.

Definition repeat (self : player) : res pyval :=
  if has self "playlist repeat" then
    v ← item self "playlist repeat"; table_getitem REPEAT_MODE v
  else Ret VNone.

Definition url (self : player) : res pyval := track_field self "url".

Definition playlist (self : player) : res pyval :=
  if has self "playlist_loop" then item self "playlist_loop" else Ret VNone.

Definition synced (self : player) : res pyval :=
  if has self "sync_master" then item self "sync_master" else Ret VNone.

Definition sync_master (self : player) : res pyval :=
  if has self "sync_master" then item self "sync_master" else Ret VNone.

Definition sync_slaves (self : player) : res pyval :=
  if has self "sync_slaves" then item self "sync_slaves" else Ret VNone.

(** [sync_group.append(x)] when [cond] is true.  [cond] and [x] are two
    evaluations of the same property. *)
Definition append_if (group : list pyval) (prop : res pyval)
    : res (list pyval) :=
  cond ← prop;
  if truthy cond then x ← prop; Ret (group ++ [x])
  else Ret group.

Definition sync_group (self : player) : res pyval :=
  me ← player_id self;
  let sync_group := [me] in
  sync_group ← append_if sync_group (sync_slaves self);
  sync_group ← append_if sync_group (sync_master self);
  Ret (VList sync_group).

End Properties.

(** ** Coroutines *)

Section Coroutines.
Context `{Builtins} `{Session}.

(** [async def async_query(self, *parameters)] *)
Definition async_query (self : player) (parameters : list pyval) : M pyval :=
  Server.async_query (_lms self) parameters (_id self).

Definition set_status (self : player) (d : gmap string pyval) : player :=
  Player (_lms self) (_id self) (_name self) d.

(** [async def async_update(self)].  The call assigns to [self._status]:
    the object as the call leaves it is part of the outcome, also when
    the call raises. *)
Definition async_update (self : player) : state → res pyval * player * state :=
  λ s,
    let tags := "adKlu" in
    match async_query self
            [VStr "status"; VStr "0"; VStr "100"; VStr ("tags:" +:+ tags)] s with
    | (Raise e, s') => (Raise e, self, s')
    | (Ret response, s') =>
        if Server.is_False response then (Ret (VBool false), self, s')
        else
          let self := set_status self ∅ in
          let '(d, r) := dict_update (_status self) response in
          let self := set_status self d in
          match r with
          | Raise e => (Raise e, self, s')
          | Ret _ => (Ret (VBool true), self, s')
          end
    end.

Definition async_set_volume (self : player) (volume : pyval) : M pyval :=
  async_query self [VStr "mixer"; VStr "volume"; volume].

Definition async_set_muting (self : player) (mute : pyval) : M pyval :=
  let mute_numeric := if truthy mute then "1" else "0" in
  async_query self [VStr "mixer"; VStr "muting"; VStr mute_numeric].

Definition async_toggle_pause (self : player) : M pyval :=
  async_query self [VStr "pause"].

Definition async_play (self : player) : M pyval :=
  async_query self [VStr "play"].

Definition async_pause (self : player) : M pyval :=
  async_query self [VStr "pause"; VStr "1"].

Definition async_index (self : player) (index : pyval) : M pyval :=
  async_query self [VStr "playlist"; VStr "index"; index].

Definition async_time (self : player) (position : pyval) : M pyval :=
  async_query self [VStr "time"; position].

Definition async_set_power (self : player) (power : pyval) : M pyval :=
  if truthy power then async_query self [VStr "power"; VStr "1"]
  else async_query self [VStr "power"; VStr "0"].

(** [async def async_load_url(self, url, cmd="load")] *)
Definition async_load_url (self : player) (url : pyval) (cmd : string)
    : M pyval :=
  async_query self [VStr "playlist"; VStr cmd; url].

(** The body of the loops of [async_load_playlist]:
    [if not await self.async_load_url(item["url"], cmd): success = False] *)
Definition load_item (self : player) (cmd : string)
    (success : bool) (item : pyval) : M bool :=
  url ← lift (getitem item (VStr "url"));
  r ← async_load_url self url cmd;
  if negb (truthy r) then mret false else mret success.

(** [async def async_load_playlist(self, playlist_ref, cmd="load")] *)
Definition async_load_playlist (self : player) (playlist_ref : loc)
    (cmd : string) : M pyval :=
  let success := true in
  (* we are going to pop the list below, so we need to copy it *)
  playlist ← list_copy playlist_ref;
  if String.eqb cmd "insert" then
    items ← list_read playlist;
    success ← for_each (load_item self cmd) success (reverse items);
    mret (VBool success)
  else
    success ← (if bool_decide (cmd ∈ ["play"; "load"]) then
                 first ← list_pop0 playlist;
                 load_item self "play" success first
               else mret success);
    items ← list_read playlist;
    success ← for_each (load_item self "add") success items;
    mret (VBool success).

Definition async_set_shuffle (self : player) (shuffle : pyval) : M pyval :=
  match table_index SHUFFLE_MODE shuffle with
  | Some shuffle_int =>
      async_query self [VStr "playlist"; VStr "shuffle"; VInt shuffle_int]
  | None => mret VNone
  end.

Definition async_set_repeat (self : player) (repeat : pyval) : M pyval :=
  match table_index REPEAT_MODE repeat with
  | Some repeat_int =>
      async_query self [VStr "playlist"; VStr "repeat"; VInt repeat_int]
  | None => mret VNone
  end.

Definition async_clear_playlist (self : player) : M pyval :=
  async_query self [VStr "playlist"; VStr "clear"].

(** [async def async_sync(self, other_player)]: a [Player] object
    ([inl]) or a player id ([inr]) *)
Definition async_sync (self : player) (other_player : player + pyval)
    : M pyval :=
  other_player_id ← lift (match other_player with
                          | inl p => player_id p
                          | inr v => Ret v
                          end);
  if negb (truthy other_player_id) then raise RuntimeError
  else async_query self [VStr "sync"; other_player_id].

Definition async_unsync (self : player) : M pyval :=
  async_query self [VStr "sync"; VStr "-"].

End Coroutines.
End Player.

(* ===================================================================== *)
(** * A session that carries out [playlist insert] *)
(* ===================================================================== *)

Module Queue.
Import Py Lms.

(** The tokens of a request: [params[1]] of the envelope *)
Definition command_of (rq : request) : option (list pyval) :=
  match req_data rq with
  | VDict d =>
      match d !! "params" with
      | Some (VList [_; VList command]) => Some command
      | _ => None
      end
  | _ => None
  end.

(** A session to run the loader against.  The state of its server is
    the list of the tracks queued after the current one; the docstring of
    [async_load_url] has it that [insert] "adds next in playlist", so an
    inserted track becomes the one that follows the current track.  Every
    request is accepted, with an empty result. *)
Definition server : Session := {|
  world := list pyval;
  post := λ w rq,
    (Response 200 (BodyJson (VDict {["result" := VDict ∅]})),
     match command_of rq with
     | Some [VStr "playlist"; VStr "insert"; url] => url :: w
     | _ => w
     end)
|}.

End Queue.

(* ===================================================================== *)
(** * Concrete interpretations, to run the definitions *)
(* ===================================================================== *)

Module Sample.
Import Py Lms.

Definition ascii_lower (c : ascii) : ascii :=
  let n := nat_of_ascii c in
  if (Nat.leb 65 n && Nat.leb n 90)%bool then ascii_of_nat (n + 32) else c.

Fixpoint lower_ascii (s : string) : string :=
  match s with
  | EmptyString => EmptyString
  | String c s' => String (ascii_lower c) (lower_ascii s')
  end.

(** The digits of a decimal literal *)
Fixpoint digits (s : string) (acc : Z) : option Z :=
  match s with
  | EmptyString => Some acc
  | String c s' =>
      let n := Z.of_nat (nat_of_ascii c) in
      if ((48 <=? n) && (n <=? 57))%bool then digits s' (10 * acc + (n - 48))
      else None
  end.

(** A decimal integer literal with an optional sign *)
Definition int_literal (s : string) : option Z :=
  match s with
  | EmptyString => None
  | String "-" (String _ _ as s') => Z.opp <$> digits s' 0
  | String "+" (String _ _ as s') => digits s' 0
  | String "-" EmptyString | String "+" EmptyString => None
  | _ => digits s 0
  end.

Definition holds (c s : string) : bool :=
  match String.index 0 c s with
  | Some _ => true
  | None => false
  end.

(** [urljoin] of a base that is the root of a site, as [image_url]
    builds it: the path is taken from the root.  A base with one kind of
    bracket and not the other is refused. *)
Definition join_root (base path : string) : option string :=
  if xorb (holds "[" base) (holds "]" base) then None
  else Some match path with
            | String "/" rest => base +:+ rest
            | _ => base +:+ path
            end.

(** An interpretation of the built-ins, enough to run the examples:
    numbers are read from plain decimal integer literals, letters are
    lowered in ASCII, the digits of floats and the elements of containers
    are left out of their string form, and a sequence updates a dict only
    when it is empty. *)
Definition builtins : Builtins := {|
  float_of_str := λ s,
    n ← int_literal s;
    match float_of_Z n with
    | Ret f => Some f
    | Raise _ => Some (S754_infinity (n <? 0))
    end;
  int_of_str := int_literal;
  repr := λ v, match v with
               | VList _ => "[...]"
               | VDict _ => "{...}"
               | VFloat (S754_finite true _ _) | VFloat (S754_infinity true)
               | VFloat (S754_zero true) => "-..."
               | _ => "..."
               end;
  lower := lower_ascii;
  update_pairs := λ d v,
    match v with
    | VList [] | VStr "" => (d, Ret ())
    | _ => (d, Raise ValueError)
    end;
  urljoin := join_root
|}.

(** A scripted session: the replies are handed out in order, and the
    connection is refused once the script is over. *)
Definition scripted : Session := {|
  world := list reply;
  post := λ w _, match w with
                 | r :: w' => (r, w')
                 | [] => (PostRaise ClientError, [])
                 end
|}.

Definition lms : server := Server "lms.local" Server.DEFAULT_PORT None None.

(** The same server behind a login, with the password that the login
    needs and without it *)
Definition guarded : server :=
  Server "lms.local" Server.DEFAULT_PORT (Some "user") (Some "secret").

Definition half_guarded : server :=
  Server "lms.local" Server.DEFAULT_PORT (Some "user") None.

(** A device of that server, with the given snapshot *)
Definition kitchen (status : gmap string pyval) : player :=
  Player lms (VStr "00:04:20:aa:aa:aa") (VStr "Kitchen") status.

Definition start (script : list reply) (heap : gmap loc (list pyval))
    : @state scripted :=
  @State scripted script [] [] heap.

(** [{"result": result}] with status 200 *)
Definition ok (result : pyval) : reply :=
  Response 200 (BodyJson (VDict {["result" := result]})).

(** Three commands accepted *)
Definition all_accepted : list reply :=
  [ok (VDict ∅); ok (VDict ∅); ok (VDict ∅)].

End Sample.

(* ===================================================================== *)
(** * Properties *)
(* ===================================================================== *)

Import Py Lms.

(** ** One query: what it returns and what it changes *)

Section Query.
Context `{Builtins} `{Session}.

(** The request that [async_query] posts, once the credentials of the
    server have made its [auth] *)
Definition request_of (self : server) (command : list pyval)
    (player : pyval) : request :=
  Request (Server.url_of self) (Server.envelope player command)
          (match Server.auth_of self with
           | Ret auth => auth
           | Raise _ => None
           end).

(** What [async_query] makes of a reply, leaving the log aside *)
Definition outcome (r : reply) : res pyval :=
  match r with
  | PostRaise e =>
      if Server.communication_error e then Ret (VBool false) else Raise e
  | Response status b =>
      if negb (status =? 200) then Ret (VBool false)
      else match b with
           | BodyRaise e =>
               if Server.communication_error e then Ret (VBool false)
               else Raise e
           | BodyJson data =>
               match getitem data (VStr "result") with
               | Ret result =>
                   Ret (if truthy result then result else VBool true)
               | Raise e => Raise e
               end
           end
  end.

Lemma getitem_not_AttributeError v k :
  getitem v k ≠ Raise AttributeError.
Proof.
  unfold getitem, list_getitem, str_getitem, fmap, res_fmap, res_bind.
  intros Heq. repeat case_match; simplify_eq.
Qed.

(** The only failure of [auth_of] is the [ValueError] of [BasicAuth]. *)
Lemma auth_of_rejected self :
  Server.credentials_ok self = false →
  Server.auth_of self = Raise ValueError.
Proof.
  unfold Server.credentials_ok, Server.auth_of, BasicAuth.
  destruct (_username self) as [u |]; [| discriminate].
  destruct (_password self) as [pw |]; [| reflexivity].
  destruct (String.index 0 ":" u); [reflexivity | discriminate].
Qed.

(** With credentials that [BasicAuth] refuses, the query raises before
    anything is logged or posted. *)
Lemma async_query_rejected self command player s :
  Server.credentials_ok self = false →
  Server.async_query self command player s = (Raise ValueError, s).
Proof.
  intros Hno. unfold Server.async_query.
  rewrite (auth_of_rejected _ Hno). reflexivity.
Qed.

(** Otherwise [async_query] posts exactly one request, returns what
    [outcome] says, appends to the log and leaves the list objects
    alone. *)
Lemma async_query_run self command player s :
  Server.credentials_ok self = true →
  ∃ lg,
    Server.async_query self command player s =
      (outcome (post (net s) (request_of self command player)).1,
       State (post (net s) (request_of self command player)).2
             (sent s ++ [request_of self command player])
             (logs s ++ lg) (heap s)).
Proof.
  unfold Server.credentials_ok, Server.async_query, request_of, outcome.
  destruct (Server.auth_of self) as [auth | e]; [intros _ | discriminate].
  unfold mbind, M_bind, bind, try_except, session_post, log, mret, M_ret,
    ret, response_json, raise, lift; simpl.
  destruct (post (net s) _) as [[e | status b] w]; simpl.
  - destruct (Server.communication_error e); simpl;
      eexists; rewrite <- ?app_assoc; reflexivity.
  - destruct (status =? 200); simpl.
    + destruct b as [data | e]; simpl.
      * pose proof (getitem_not_AttributeError data (VStr "result")) as Hne.
        destruct (getitem data (VStr "result")) as [result | e]; simpl.
        -- destruct (truthy result); simpl;
             eexists; rewrite <- ?app_assoc; reflexivity.
        -- destruct e; try congruence;
             eexists; rewrite <- ?app_assoc; reflexivity.
      * destruct (Server.communication_error e); simpl;
          eexists; rewrite <- ?app_assoc; reflexivity.
    + eexists; rewrite <- ?app_assoc; reflexivity.
Qed.

Lemma async_query_result self command player s :
  Server.credentials_ok self = true →
  (Server.async_query self command player s).1 =
    outcome (post (net s) (request_of self command player)).1.
Proof.
  intros Hok. destruct (async_query_run self command player s Hok) as [lg ->].
  done.
Qed.

Lemma async_query_sent self command player s :
  Server.credentials_ok self = true →
  sent (Server.async_query self command player s).2 =
    sent s ++ [request_of self command player].
Proof.
  intros Hok. destruct (async_query_run self command player s Hok) as [lg ->].
  done.
Qed.

Lemma async_query_heap self command player s :
  heap (Server.async_query self command player s).2 = heap s.
Proof.
  destruct (Server.credentials_ok self) eqn:Hok.
  - destruct (async_query_run self command player s Hok) as [lg ->]. done.
  - rewrite async_query_rejected by done. done.
Qed.

Lemma async_query_net self command player s :
  Server.credentials_ok self = true →
  net (Server.async_query self command player s).2 =
    (post (net s) (request_of self command player)).2.
Proof.
  intros Hok. destruct (async_query_run self command player s Hok) as [lg ->].
  done.
Qed.

(** A query that returns had its credentials accepted. *)
Lemma async_query_returns self command player s v :
  (Server.async_query self command player s).1 = Ret v →
  Server.credentials_ok self = true.
Proof.
  destruct (Server.credentials_ok self) eqn:Hok; [done |].
  rewrite async_query_rejected by done. discriminate.
Qed.

(** A query never returns [None]: the handler for [AttributeError]
    cannot be reached, since subscripting raises [KeyError] or
    [TypeError]. *)
Lemma async_query_never_None self command player s :
  (Server.async_query self command player s).1 ≠ Ret VNone.
Proof.
  intros Hret. pose proof (async_query_returns _ _ _ _ _ Hret) as Hok.
  revert Hret. rewrite async_query_result by done. unfold outcome.
  destruct (post _ _).1 as [e | status [data | e]]; repeat case_match;
    try discriminate.
  intros [= Hr]. subst. discriminate.
Qed.

End Query.

(** ** Reading the snapshot *)

Section Snapshot.

Lemma has_Some self k v :
  _status self !! k = Some v → Player.has self k = true.
Proof. intros Hk. unfold Player.has. rewrite Hk. reflexivity. Qed.

Lemma has_None self k :
  _status self !! k = None → Player.has self k = false.
Proof. intros Hk. unfold Player.has. rewrite Hk. reflexivity. Qed.

Lemma item_Some self k v :
  _status self !! k = Some v → Player.item self k = Ret v.
Proof. intros Hk. unfold Player.item. rewrite Hk. reflexivity. Qed.

Lemma item_None self k :
  _status self !! k = None → Player.item self k = Raise KeyError.
Proof. intros Hk. unfold Player.item. rewrite Hk. reflexivity. Qed.

End Snapshot.

(** ** A device that was never refreshed *)

Section Unknown.
Context `{Builtins}.

(** [Player(lms, player_id, name)] has an empty snapshot. *)
Lemma Player_init_empty `{Session} lms player_id name s :
  ∃ s', Server.Player_init lms player_id name None s =
          (Ret (Player lms player_id name ∅), s')
        ∧ heap s' = heap s ∧ sent s' = sent s ∧ net s' = net s.
Proof. eexists. split; [reflexivity | done]. Qed.

(** On the empty snapshot the properties that test a key of the
    snapshot are unknown, and so is the current track. *)
Lemma snapshot_properties_unknown lms player_id name :
  let p := Player lms player_id name ∅ in
  Player.power p = Ret VNone ∧ Player.mode p = Ret VNone ∧
  Player.volume p = Ret VNone ∧ Player.muting p = Ret VNone ∧
  Player.shuffle p = Ret VNone ∧ Player.repeat p = Ret VNone ∧
  Player.current_title p = Ret VNone ∧ Player.duration p = Ret VNone ∧
  Player.time p = Ret VNone ∧ Player.current_track p = Ret VNone.
Proof. repeat split; reflexivity. Qed.

(** When the current track is unknown, each of its four fields raises:
    [k in None] is a [TypeError]. *)
Lemma track_field_unknown_track p k :
  Player.current_track p = Ret VNone →
  Player.track_field p k = Raise TypeError.
Proof. unfold Player.track_field. intros ->. reflexivity. Qed.

(** C1, at the input where it fails.  A device that was created and
    never refreshed has the empty snapshot; reading [title], [artist],
    [album] or [url] on it raises [TypeError] instead of returning
    [None]. *)
Theorem track_fields_raise_on_empty_snapshot lms player_id name :
  let p := Player lms player_id name ∅ in
  Player.title p = Raise TypeError ∧ Player.artist p = Raise TypeError ∧
  Player.album p = Raise TypeError ∧ Player.url p = Raise TypeError.
Proof. repeat split; reflexivity. Qed.

End Unknown.

(** ** The sync group *)

Section SyncGroup.

(** C2 as amended.  With [sync_slaves] the list [[S1]] and [sync_master]
    the value [M], the group is the own id, then the slaves value as one
    element (the list itself, not its members), then [M] when [M] is
    truthy. *)
Theorem sync_group_nests_slaves self S1 M :
  _status self !! "sync_slaves" = Some (VList [S1]) →
  _status self !! "sync_master" = Some M →
  Player.sync_group self =
    Ret (VList ([_id self; VList [S1]] ++ if truthy M then [M] else [])).
Proof.
  intros Hs Hm.
  unfold Player.sync_group, Player.append_if, Player.sync_slaves,
    Player.sync_master, Player.player_id.
  rewrite (has_Some _ _ _ Hs), (has_Some _ _ _ Hm),
    (item_Some _ _ _ Hs), (item_Some _ _ _ Hm).
  simpl. destruct (truthy M); reflexivity.
Qed.

Definition synced_player : player :=
  Sample.kitchen
    {[ "sync_slaves" := VList [VStr "00:04:20:bb:bb:bb"];
       "sync_master" := VStr "00:04:20:cc:cc:cc" ]}.

Lemma sync_group_nests_slaves_witness :
  Player.sync_group synced_player =
    Ret (VList [VStr "00:04:20:aa:aa:aa";
                VList [VStr "00:04:20:bb:bb:bb"];
                VStr "00:04:20:cc:cc:cc"]).
Proof.
  exact (sync_group_nests_slaves synced_player
           (VStr "00:04:20:bb:bb:bb") (VStr "00:04:20:cc:cc:cc")
           eq_refl eq_refl).
Defined.

(** C2 as stated fails: the group of [synced_player] is not the flat
    list of the three ids. *)
Lemma sync_group_not_flat :
  Player.sync_group synced_player ≠
    Ret (VList [VStr "00:04:20:aa:aa:aa";
                VStr "00:04:20:bb:bb:bb";
                VStr "00:04:20:cc:cc:cc"]).
Proof. vm_compute. discriminate. Qed.

End SyncGroup.

(** ** Integers through [float] *)

Section FloatOfInteger.

(** The number of binary digits of [p] *)
Lemma digits2_pos_lower p : 2 ^ (Z.pos (digits2_pos p) - 1) ≤ Z.pos p.
Proof.
  induction p as [p IH | p IH |]; cbn [digits2_pos]; [| | done].
  - rewrite Pos2Z.inj_succ.
    replace (Z.succ (Z.pos (digits2_pos p)) - 1)
      with (Z.succ (Z.pos (digits2_pos p) - 1)) by lia.
    rewrite Z.pow_succ_r by lia. lia.
  - rewrite Pos2Z.inj_succ.
    replace (Z.succ (Z.pos (digits2_pos p)) - 1)
      with (Z.succ (Z.pos (digits2_pos p) - 1)) by lia.
    rewrite Z.pow_succ_r by lia. lia.
Qed.

Lemma digits2_pos_bound p : Z.pos p < 2 ^ 53 → Z.pos (digits2_pos p) ≤ 53.
Proof.
  intros Hp. pose proof (digits2_pos_lower p) as Hlow.
  destruct (Z.le_gt_cases (Z.pos (digits2_pos p)) 53) as [| Hgt]; [done |].
  exfalso.
  assert (2 ^ 53 ≤ 2 ^ (Z.pos (digits2_pos p) - 1))
    by (apply Z.pow_le_mono_r; lia).
  lia.
Qed.

(** Shifting left adds digits and multiplies by a power of two. *)
Lemma digits2_pos_iter p k :
  digits2_pos (Pos.iter xO p k) = (digits2_pos p + k)%positive.
Proof.
  induction k as [| k IH] using Pos.peano_ind.
  - cbn. by rewrite Pos.add_1_r.
  - rewrite Pos.iter_succ. cbn [digits2_pos]. rewrite IH. lia.
Qed.

Lemma Zpos_iter p k : Z.pos (Pos.iter xO p k) = Z.pos p * 2 ^ Z.pos k.
Proof.
  induction k as [| k IH] using Pos.peano_ind.
  - cbn. lia.
  - rewrite Pos.iter_succ, Pos2Z.inj_xO, IH, Pos2Z.inj_succ.
    rewrite Z.pow_succ_r by lia. lia.
Qed.

(** A mantissa of 53 digits with an exponent in range is already
    rounded. *)
Lemma binary_round_aux_canonical sx m e :
  Z.pos (digits2_pos m) = 53 → -1074 ≤ e ≤ 971 →
  binary_round_aux Py.prec Py.emax sx (Z.pos m) e loc_Exact
    = S754_finite sx m e.
Proof.
  intros Hd He.
  assert (Hshr : ∀ l, shr_fexp Py.prec Py.emax (Z.pos m) e l
                      = (shr_record_of_loc (Z.pos m) l, e)).
  { intros l. unfold shr_fexp, fexp, emin, Py.prec, Py.emax.
    cbn [Zdigits2]. rewrite Hd.
    replace (Z.max (53 + e - 53) (3 - 1024 - 53) - e) with 0 by lia.
    reflexivity. }
  unfold binary_round_aux. rewrite Hshr.
  cbn [shr_record_of_loc shr_m loc_of_shr_record round_nearest_even].
  rewrite Hshr. cbn [shr_record_of_loc shr_m].
  unfold Py.prec, Py.emax.
  by rewrite (proj2 (Z.leb_le e (1024 - 53))) by lia.
Qed.

(** [float] of an integer below [2^53] in magnitude is that integer. *)
Lemma binary_round_exact sx p :
  Z.pos p < 2 ^ 53 →
  ∃ m e, binary_round Py.prec Py.emax sx p 0 = S754_finite sx m e
         ∧ Z.shiftl (Z.pos m) e = Z.pos p.
Proof.
  intros Hp. pose proof (digits2_pos_bound p Hp) as Hd.
  unfold binary_round, shl_align, fexp, emin.
  replace (Z.max (Z.pos (digits2_pos p) + 0 - Py.prec)
             (3 - Py.emax - Py.prec))
    with (Z.pos (digits2_pos p) - 53) by (unfold Py.prec, Py.emax; lia).
  destruct (Z.pos (digits2_pos p) - 53 - 0) as [| k | k] eqn:Hk; [| lia |].
  - exists p, 0. split; [| done].
    apply binary_round_aux_canonical; lia.
  - exists (Pos.iter xO p k), (Z.pos (digits2_pos p) - 53). split.
    + apply binary_round_aux_canonical; [| lia].
      rewrite digits2_pos_iter. lia.
    + rewrite Zpos_iter.
      replace (Z.pos (digits2_pos p) - 53) with (- Z.pos k) by lia.
      rewrite Z.shiftl_opp_r, Z.shiftr_div_pow2 by lia.
      apply Z.div_mul. lia.
Qed.

(** [int(float(n))] is [n] for every integer below [2^53] in
    magnitude. *)
Lemma int_float_exact_53 n :
  Z.abs n < 2 ^ 53 → res_bind (float_of_Z n) trunc = Ret n.
Proof.
  intros Hn. unfold float_of_Z, binary_normalize.
  destruct n as [| p | p]; [reflexivity | |].
  - destruct (binary_round_exact false p) as (m & e & -> & Hme); [lia |].
    cbn [res_bind trunc]. by rewrite Hme.
  - destruct (binary_round_exact true p) as (m & e & -> & Hme); [lia |].
    cbn [res_bind trunc]. by rewrite Hme.
Qed.

End FloatOfInteger.

(** ** Volume and muting: two views of the raw mixer volume *)

Section Volume.
Context `{Builtins}.

Lemma startswith_minus_inv s :
  startswith s "-" = true → ∃ s', s = "-" +:+ s'.
Proof.
  unfold startswith. destruct s as [| c s']; simpl; [discriminate |].
  case_match; [subst c | discriminate].
  intros _. by exists s'.
Qed.

(** The decimal form of an integer starts with a minus sign exactly
    when the integer is negative. *)
Lemma str_int_minus n : startswith (str (VInt n)) "-" = true ↔ n < 0.
Proof.
  simpl. split.
  - intros [s' Hs]%startswith_minus_inv.
    destruct n as [| p | p]; [cbv in Hs; discriminate | | lia].
    exfalso. revert Hs. unfold pretty, pretty_Z, pretty, pretty_positive,
      pretty, pretty_N. case_decide; [discriminate |].
    by apply pretty_N_go_ne_dash.
  - destruct n as [| p | p]; [lia | lia |]. intros _.
    unfold startswith, pretty, pretty_Z. simpl.
    by destruct ("" +:+ pretty p).
Qed.

(** C8.  When the snapshot holds the raw mixer volume, [muting] tells
    whether its string form starts with a minus sign, and [volume] is
    the absolute value of [int(float(raw))]: it raises what the
    conversion raises, and what it returns is an integer that is not
    negative.  Nothing is clamped: for an integer raw value [n] below
    [2^53] in magnitude [volume] returns the absolute value of [n],
    which is within [0..100] exactly when [n] is within [-100..100],
    and [muting] holds exactly when [n] is negative. *)
Theorem volume_muting_views self raw :
  _status self !! "mixer volume" = Some raw →
  Player.muting self = Ret (VBool (startswith (str raw) "-"))
  ∧ Player.volume self = (f ← float raw; n ← trunc f; Ret (VInt (Z.abs n)))
  ∧ (∀ v, Player.volume self = Ret v → ∃ m, v = VInt m ∧ 0 ≤ m)
  ∧ ∀ n, raw = VInt n → Z.abs n < 2 ^ 53 →
      Player.volume self = Ret (VInt (Z.abs n))
      ∧ ((∃ m, Player.volume self = Ret (VInt m) ∧ 0 ≤ m ≤ 100)
         ↔ -100 ≤ n ≤ 100)
      ∧ (Player.muting self = Ret (VBool true) ↔ n < 0).
Proof.
  intros Hraw.
  assert (Hm : Player.muting self = Ret (VBool (startswith (str raw) "-"))).
  { unfold Player.muting.
    rewrite (has_Some _ _ _ Hraw), (item_Some _ _ _ Hraw). reflexivity. }
  assert (Hv : Player.volume self
               = (f ← float raw; n ← trunc f; Ret (VInt (Z.abs n)))).
  { unfold Player.volume.
    rewrite (has_Some _ _ _ Hraw), (item_Some _ _ _ Hraw). reflexivity. }
  split; [exact Hm |]. split; [exact Hv |]. split.
  - intros v. rewrite Hv.
    destruct (float raw) as [f | e]; [| discriminate].
    cbn [mbind res_mbind res_bind].
    destruct (trunc f) as [n | e]; [| discriminate].
    intros [= <-]. exists (Z.abs n). split; [reflexivity | lia].
  - intros n -> Hn.
    assert (Hvn : Player.volume self = Ret (VInt (Z.abs n))).
    { rewrite Hv. pose proof (int_float_exact_53 n Hn) as Hexact.
      cbn [float mbind res_mbind].
      destruct (float_of_Z n) as [f | e]; [| discriminate].
      cbn [mbind res_mbind res_bind] in *. by rewrite Hexact. }
    split; [exact Hvn |]. split.
    + rewrite Hvn. split.
      * intros (m & [= <-] & Hm100). lia.
      * intros Hn100. exists (Z.abs n). split; [reflexivity | lia].
    + destruct (str_int_minus n) as [Hneg Hminus]. rewrite Hm. split.
      * intros [= Heq]. by apply Hneg.
      * intros Hlt. by rewrite (Hminus Hlt).
Qed.

Definition muted_player : player :=
  Sample.kitchen {[ "mixer volume" := VInt (-37) ]}.

Definition audible_player : player :=
  Sample.kitchen {[ "mixer volume" := VInt 37 ]}.

(** Raw values that the protocol does not send *)
Definition loud_player : player :=
  Sample.kitchen {[ "mixer volume" := VInt 150 ]}.

Definition silent_player : player :=
  Sample.kitchen {[ "mixer volume" := VNone ]}.

End Volume.

(** The raw value [-37]: volume 37, muted. *)
Lemma volume_muting_views_witness :
  @Player.volume Sample.builtins muted_player = Ret (VInt 37)
  ∧ @Player.muting Sample.builtins muted_player = Ret (VBool true).
Proof.
  destruct (@volume_muting_views Sample.builtins muted_player
              (VInt (-37)) eq_refl) as (_ & _ & _ & Hn).
  destruct (Hn (-37) eq_refl eq_refl) as (Hv & _ & Hm).
  split; [exact Hv | apply Hm; lia].
Defined.

(** The raw value [37]: volume 37, not muted. *)
Example volume_muting_37 :
  @Player.volume Sample.builtins audible_player = Ret (VInt 37)
  ∧ @Player.muting Sample.builtins audible_player = Ret (VBool false).
Proof. split; reflexivity. Qed.

(** The raw value [150] gives the volume 150, which is not within
    [0..100], and the raw value [None] gives no volume at all. *)
Lemma volume_outside_0_100 :
  @Player.volume Sample.builtins loud_player = Ret (VInt 150)
  ∧ (∀ m, @Player.volume Sample.builtins loud_player = Ret (VInt m) →
          ¬ 0 ≤ m ≤ 100)
  ∧ @Player.volume Sample.builtins silent_player = Raise TypeError.
Proof.
  assert (Hloud : @Player.volume Sample.builtins loud_player
                  = Ret (VInt 150)) by reflexivity.
  split; [exact Hloud |]. split; [| reflexivity].
  intros m. rewrite Hloud. intros [= <-]. lia.
Qed.

(** ** Queries that fail *)

Section QueryFailures.
Context `{Builtins} `{Session}.

(** A time-out, a connection error or a status other than 200 *)
Definition transport_failure (r : reply) : Prop :=
  match r with
  | PostRaise e => e = TimeoutError ∨ e = ClientError
  | Response status _ => status ≠ 200
  end.

(** A transport failure yields [False], and nothing is raised. *)
Lemma query_transport_failure self command player s :
  Server.credentials_ok self = true →
  transport_failure (post (net s) (request_of self command player)).1 →
  (Server.async_query self command player s).1 = Ret (VBool false).
Proof.
  intros Hok. rewrite async_query_result by done.
  unfold transport_failure, outcome.
  destruct (post _ _).1 as [e | status b].
  - by intros [-> | ->].
  - intros Hs. by apply Z.eqb_neq in Hs as ->.
Qed.

(** C6, at the input where it fails.  The server answers 200 with a
    JSON object that has no [result]: the subscript raises [KeyError],
    the handler takes [AttributeError] only, and the exception reaches
    the caller.  (On a server whose credentials [BasicAuth] refuses the
    call has raised [ValueError] before that.) *)
Theorem query_raises_on_missing_result self command player s d w :
  post (net s) (request_of self command player)
    = (Response 200 (BodyJson (VDict d)), w) →
  d !! "result" = None →
  (Server.async_query self command player s).1
    = Raise (if Server.credentials_ok self then KeyError else ValueError).
Proof.
  intros Hpost Hd. destruct (Server.credentials_ok self) eqn:Hok.
  - rewrite async_query_result, Hpost by done. simpl. by rewrite Hd.
  - by rewrite async_query_rejected.
Qed.

(** A body that is JSON but not an object raises [TypeError]. *)
Lemma query_raises_on_non_object self command player s data w :
  post (net s) (request_of self command player)
    = (Response 200 (BodyJson data), w) →
  (∀ d, data ≠ VDict d) →
  ∃ e, (Server.async_query self command player s).1 = Raise e.
Proof.
  intros Hpost Hd. destruct (Server.credentials_ok self) eqn:Hok.
  - rewrite async_query_result, Hpost by done. simpl.
    destruct data; eauto. by destruct (Hd d).
  - rewrite async_query_rejected by done. eauto.
Qed.

End QueryFailures.

Lemma query_raises_on_missing_result_witness :
  (@Server.async_query Sample.scripted Sample.lms [VStr "status"] (VStr "")
     (Sample.start [Response 200 (BodyJson (VDict ∅))] ∅)).1
  = Raise KeyError.
Proof.
  exact (@query_raises_on_missing_result Sample.scripted Sample.lms
           [VStr "status"] (VStr "")
           (Sample.start [Response 200 (BodyJson (VDict ∅))] ∅)
           ∅ [] eq_refl eq_refl).
Defined.

(** ** Enumeration and lookup of devices *)

Section Devices.
Context `{Builtins} `{Session}.

(** C3, at the input where it fails.  A lookup by name, without id,
    reaches [self.get_players()]: the class has no such attribute (its
    method is [async_get_players]), so the call raises
    [AttributeError] before any request is sent. *)
Theorem lookup_by_name_raises self player_id name s :
  truthy player_id = false →
  truthy name = true →
  Server.async_get_player self player_id name s = (Raise AttributeError, s).
Proof.
  intros Hid Hname. unfold Server.async_get_player.
  rewrite Hid, Hname, bind_lift.
  change (Server.players_method self "get_players") with
    (Raise AttributeError : res (M (option (list player)))).
  reflexivity.
Qed.

(** Without id and without name the lookup logs an error and returns
    [None]. *)
Lemma lookup_without_arguments self s :
  Server.async_get_player self VNone VNone s
    = (Ret None,
       State (net s) (sent s)
         (logs s ++ [(ERROR, "get_player called without name or player_id")])
         (heap s)).
Proof. reflexivity. Qed.

Definition roster_request (self : server) : request :=
  request_of self [VStr "players"; VStr "status"] (VStr "").

(** The device built from one entry of the roster *)
Definition device_of (self : server) (entry : pyval) (p : player) : Prop :=
  ∃ player_id name,
    getitem entry (VStr "playerid") = Ret player_id ∧
    getitem entry (VStr "name") = Ret name ∧
    p = Player self player_id name ∅.

Lemma roster_loop self entries ps acc s :
  Forall2 (device_of self) entries ps →
  ∃ s', for_each
          (λ players entry,
             player_id ← lift (getitem entry (VStr "playerid"));
             name ← lift (getitem entry (VStr "name"));
             p ← Server.Player_init self player_id name None;
             mret (players ++ [p]))
          acc entries s
        = (Ret (acc ++ ps), s').
Proof.
  intros Hall. revert acc s.
  induction Hall as [| e p es ps (i & n & Hi & Hn & ->) _ IH]; intros acc s.
  - eexists. simpl. by rewrite app_nil_r.
  - simpl. unfold bind at 1.
    unfold mbind, M_bind, bind, lift, mret, M_ret, ret, log,
      Server.Player_init at 1. simpl. rewrite Hi, Hn. simpl.
    edestruct IH as [s' ->]. eexists. by rewrite <- app_assoc.
Qed.

(** When the result is a non-empty mapping, the devices are those of
    its roster, one per entry and in order, and there is none when the
    mapping has no roster. *)
Lemma get_players_of_mapping self s body d w :
  Server.credentials_ok self = true →
  post (net s) (roster_request self)
    = (Response 200 (BodyJson (VDict body)), w) →
  body !! "result" = Some (VDict d) →
  truthy (VDict d) = true →
  (d !! "players_loop" = None →
     (Server.async_get_players self s).1 = Ret (Some []))
  ∧ (∀ entries ps,
       d !! "players_loop" = Some (VList entries) →
       Forall2 (device_of self) entries ps →
       (Server.async_get_players self s).1 = Ret (Some ps)).
Proof.
  intros Hok Hpost Hbody Hd.
  assert (Hq : ∃ s1, Server.async_query self
                       [VStr "players"; VStr "status"] (VStr "") s
                     = (Ret (VDict d), s1)).
  { destruct (async_query_run self [VStr "players"; VStr "status"]
                (VStr "") s Hok) as [lg Hrun].
    eexists. rewrite Hrun. fold (roster_request self). rewrite Hpost.
    simpl. rewrite Hbody. simpl in Hd. simpl. rewrite Hd. reflexivity. }
  destruct Hq as [s1 Hq].
  unfold Server.async_get_players.
  rewrite (bind_ret_run _ _ _ _ _ Hq).
  change (Server.is_False (VDict d)) with false. cbv iota.
  rewrite bind_lift. unfold Server.get_method. split.
  - intros ->. reflexivity.
  - intros entries ps -> Hall. cbn [default from_option mbind res_mbind
      res_bind Server.iter id].
    destruct (roster_loop self entries ps [] s1 Hall) as [s' Hloop].
    rewrite (bind_ret_run _ _ _ _ _ Hloop). reflexivity.
Qed.

(** C9, at the input where it fails.  The server answers the roster
    query with an empty result: [async_query] turns it into [True], and
    [True.get] raises [AttributeError].  (On a server whose credentials
    [BasicAuth] refuses the query has raised [ValueError] before
    that.) *)
Theorem get_players_raises_on_empty_result self s body result w :
  post (net s) (roster_request self)
    = (Response 200 (BodyJson (VDict body)), w) →
  body !! "result" = Some result →
  truthy result = false →
  (Server.async_get_players self s).1
    = Raise (if Server.credentials_ok self then AttributeError
             else ValueError).
Proof.
  intros Hpost Hbody Hr. unfold Server.async_get_players.
  destruct (Server.credentials_ok self) eqn:Hok.
  - destruct (async_query_run self [VStr "players"; VStr "status"]
                (VStr "") s Hok) as [lg Hrun].
    fold (roster_request self) in Hrun. rewrite Hpost in Hrun.
    simpl in Hrun. rewrite Hbody, Hr in Hrun.
    rewrite (bind_ret_run _ _ _ _ _ Hrun). reflexivity.
  - rewrite (bind_raise_run _ _ _ _ _
               (async_query_rejected self _ _ s Hok)).
    reflexivity.
Qed.

End Devices.

Lemma lookup_by_name_raises_witness :
  @Server.async_get_player Sample.builtins Sample.scripted Sample.lms
    VNone (VStr "Kitchen") (Sample.start [] ∅)
  = (Raise AttributeError, Sample.start [] ∅).
Proof.
  exact (@lookup_by_name_raises Sample.builtins Sample.scripted Sample.lms
           VNone (VStr "Kitchen") (Sample.start [] ∅) eq_refl eq_refl).
Defined.

Lemma get_players_raises_on_empty_result_witness :
  (@Server.async_get_players Sample.scripted Sample.lms
     (Sample.start [Sample.ok (VDict ∅)] ∅)).1
  = Raise AttributeError.
Proof.
  exact (@get_players_raises_on_empty_result Sample.scripted Sample.lms
           (Sample.start [Sample.ok (VDict ∅)] ∅)
           {["result" := VDict ∅]} (VDict ∅) [] eq_refl eq_refl eq_refl).
Defined.

(** ** Refreshing the snapshot *)

Section Refresh.
Context `{Builtins} `{Session}.

Definition status_command : list pyval :=
  [VStr "status"; VStr "0"; VStr "100"; VStr ("tags:" +:+ "adKlu")].

Definition status_request (self : player) : request :=
  request_of (_lms self) status_command (_id self).

(** The failure sentinel leaves the object as it was, and the call
    returns [False]. *)
Lemma update_failure_keeps_snapshot self s :
  (Player.async_query self status_command s).1 = Ret (VBool false) →
  (Player.async_update self s).1 = (Ret (VBool false), self).
Proof.
  intros Hq. unfold Player.async_update. fold status_command.
  destruct (Player.async_query self status_command s) as [r s'].
  simpl in Hq. subst r. reflexivity.
Qed.

(** A mapping replaces the snapshot: no key of the old snapshot is
    kept, and the call returns [True]. *)
Lemma update_replaces_snapshot self s d :
  (Player.async_query self status_command s).1 = Ret (VDict d) →
  (Player.async_update self s).1 =
    (Ret (VBool true), Player (_lms self) (_id self) (_name self) d).
Proof.
  intros Hq. unfold Player.async_update. fold status_command.
  destruct (Player.async_query self status_command s) as [r s'].
  simpl in Hq. subst r. simpl. unfold Player.set_status. simpl.
  by rewrite (right_id_L ∅ (∪) d).
Qed.

(** The state of the network, the requests and the store after a
    refresh are those after its one query. *)
Lemma update_effects self s :
  (Player.async_update self s).2 = (Player.async_query self status_command s).2.
Proof.
  unfold Player.async_update. fold status_command.
  destruct (Player.async_query self status_command s) as [[r | e] s'];
    [| reflexivity].
  destruct (Server.is_False r); [reflexivity |]. simpl.
  destruct (dict_update _ r) as [d [[] | e]]; reflexivity.
Qed.

(** C7, at the input where it fails.  The server answers the status
    query with an empty result, a success: [async_query] returns
    [True], the snapshot is set to the empty dict, and [update(True)]
    raises [TypeError] where the call should return [True].  (On a
    server whose credentials [BasicAuth] refuses the query has raised
    [ValueError] before that, and the snapshot is as it was.) *)
Theorem update_raises_on_empty_result self s body result w :
  post (net s) (status_request self)
    = (Response 200 (BodyJson (VDict body)), w) →
  body !! "result" = Some result →
  truthy result = false →
  (Player.async_update self s).1 =
    if Server.credentials_ok (_lms self) then
      (Raise TypeError, Player (_lms self) (_id self) (_name self) ∅)
    else (Raise ValueError, self).
Proof.
  intros Hpost Hbody Hr.
  unfold Player.async_update, Player.async_query. fold status_command.
  destruct (Server.credentials_ok (_lms self)) eqn:Hok.
  - destruct (async_query_run (_lms self) status_command (_id self) s Hok)
      as [lg Hrun].
    fold (status_request self) in Hrun. rewrite Hpost in Hrun.
    simpl in Hrun. rewrite Hbody, Hr in Hrun. rewrite Hrun.
    reflexivity.
  - by rewrite async_query_rejected.
Qed.

End Refresh.

(** A device that was refreshed while it played *)
Definition playing_player : player :=
  Sample.kitchen {[ "mode" := VStr "play"; "power" := VInt 1 ]}.

Lemma update_raises_on_empty_result_witness :
  (@Player.async_update Sample.builtins Sample.scripted playing_player
     (Sample.start [Sample.ok (VDict ∅)] ∅)).1
  = (Raise TypeError, Sample.kitchen ∅).
Proof.
  exact (@update_raises_on_empty_result Sample.builtins Sample.scripted
           playing_player (Sample.start [Sample.ok (VDict ∅)] ∅)
           {["result" := VDict ∅]} (VDict ∅) [] eq_refl eq_refl eq_refl).
Defined.

(** ** Every other operation leaves the snapshot alone *)

Module Operations.

Section Frame.
Context `{Builtins} `{Session}.

Inductive property : Type :=
| name | player_id | power | mode | volume | muting | current_title
| duration | time | image_url | current_track | title | artist | album
| shuffle | repeat | url | playlist | synced | sync_master | sync_slaves
| sync_group.

Definition read (prop : property) : player → res pyval :=
  match prop with
  | name => Player.name | player_id => Player.player_id
  | power => Player.power | mode => Player.mode
  | volume => Player.volume | muting => Player.muting
  | current_title => Player.current_title
  | duration => Player.duration | time => Player.time
  | image_url => Player.image_url
  | current_track => Player.current_track
  | title => Player.title | artist => Player.artist
  | album => Player.album
  | shuffle => Player.shuffle | repeat => Player.repeat
  | url => Player.url | playlist => Player.playlist
  | synced => Player.synced | sync_master => Player.sync_master
  | sync_slaves => Player.sync_slaves | sync_group => Player.sync_group
  end.

(** The operations of a [Player], with their arguments *)
Inductive operation : Type :=
| get (prop : property)
| async_query (parameters : list pyval)
| async_update
| async_set_volume (volume : pyval)
| async_set_muting (mute : pyval)
| async_toggle_pause
| async_play
| async_pause
| async_index (index : pyval)
| async_time (position : pyval)
| async_set_power (power : pyval)
| async_load_url (url : pyval) (cmd : string)
| async_load_playlist (playlist_ref : loc) (cmd : string)
| async_set_shuffle (shuffle : pyval)
| async_set_repeat (repeat : pyval)
| async_clear_playlist
| async_sync (other_player : Lms.player + pyval)
| async_unsync.

(** An operation that does not assign to the object *)
Definition keep (self : Lms.player) (m : M pyval)
    : state → res pyval * Lms.player * state :=
  λ s, let '(r, s') := m s in (r, self, s').

Definition perform (op : operation) (self : Lms.player)
    : state → res pyval * Lms.player * state :=
  match op with
  | get prop => keep self (lift (read prop self))
  | async_query parameters => keep self (Player.async_query self parameters)
  | async_update => Player.async_update self
  | async_set_volume v => keep self (Player.async_set_volume self v)
  | async_set_muting v => keep self (Player.async_set_muting self v)
  | async_toggle_pause => keep self (Player.async_toggle_pause self)
  | async_play => keep self (Player.async_play self)
  | async_pause => keep self (Player.async_pause self)
  | async_index i => keep self (Player.async_index self i)
  | async_time t => keep self (Player.async_time self t)
  | async_set_power p => keep self (Player.async_set_power self p)
  | async_load_url u c => keep self (Player.async_load_url self u c)
  | async_load_playlist l c => keep self (Player.async_load_playlist self l c)
  | async_set_shuffle v => keep self (Player.async_set_shuffle self v)
  | async_set_repeat v => keep self (Player.async_set_repeat self v)
  | async_clear_playlist => keep self (Player.async_clear_playlist self)
  | async_sync o => keep self (Player.async_sync self o)
  | async_unsync => keep self (Player.async_unsync self)
  end.

Lemma keep_object self m s : (keep self m s).1.2 = self.
Proof. unfold keep. by destruct (m s). Qed.

(** Only [async_update] changes the snapshot. *)
Lemma snapshot_frame op self s :
  op ≠ async_update →
  _status (perform op self s).1.2 = _status self.
Proof.
  intros Hop. destruct op; try done; simpl; by rewrite keep_object.
Qed.

End Frame.

End Operations.

(** ** Loading a playlist *)

Section Playlist.
Context `{Builtins} `{Session}.

(** The request of [async_load_url(url, cmd)] *)
Definition load_request (self : player) (cmd : string) (url : pyval)
    : request :=
  request_of (_lms self) [VStr "playlist"; VStr cmd; url] (_id self).

(** The sub-commands of one load, as the modes are specified: for
    [insert] one insert per entry, last entry first; for [play] and
    [load] the first entry is played and the others are added in order;
    otherwise every entry is added in order. *)
Definition plan (cmd : string) (urls : list pyval) : list (string * pyval) :=
  if String.eqb cmd "insert" then (λ u, ("insert", u)) <$> reverse urls
  else if bool_decide (cmd ∈ ["play"; "load"]) then
    match urls with
    | u :: us => ("play", u) :: ((λ u, ("add", u)) <$> us)
    | [] => []
    end
  else (λ u, ("add", u)) <$> urls.

Definition requests (self : player) (cmd : string) (urls : list pyval)
    : list request :=
  (λ cu, load_request self cu.1 cu.2) <$> plan cmd urls.

(** The requests sent in turn, each whatever the earlier ones gave:
    what each query makes of its reply, and the network afterwards. *)
Fixpoint exchange (w : world) (rqs : list request)
    : list (res pyval) * world :=
  match rqs with
  | [] => ([], w)
  | rq :: rqs' =>
      let '(r, w') := post w rq in
      let '(rs, w'') := exchange w' rqs' in
      (outcome r :: rs, w'')
  end.

Lemma exchange_app w rqs1 rqs2 :
  exchange w (rqs1 ++ rqs2) =
    ((exchange w rqs1).1 ++ (exchange (exchange w rqs1).2 rqs2).1,
     (exchange (exchange w rqs1).2 rqs2).2).
Proof.
  revert w. induction rqs1 as [| rq rqs1 IH]; intros w; simpl.
  - by destruct (exchange w rqs2).
  - destruct (post w rq) as [r w']. rewrite IH.
    destruct (exchange w' rqs1) as [rs1 w1]. simpl.
    by destruct (exchange w1 rqs2).
Qed.

Lemma exchange_cons w rq rqs :
  exchange w (rq :: rqs) =
    (outcome (post w rq).1 :: (exchange (post w rq).2 rqs).1,
     (exchange (post w rq).2 rqs).2).
Proof.
  simpl. destruct (post w rq) as [r w']; simpl.
  by destruct (exchange w' rqs).
Qed.

(** An entry and its url *)
Definition url_of (entry url : pyval) : Prop :=
  getitem entry (VStr "url") = Ret url.

(** One turn of a loop, when the credentials are accepted, the entry
    has a url and its sub-command is answered with [v]. *)
Lemma load_item_run self cmd success entry url v s :
  Server.credentials_ok (_lms self) = true →
  url_of entry url →
  outcome (post (net s) (load_request self cmd url)).1 = Ret v →
  ∃ lg, Player.load_item self cmd success entry s =
          (Ret (success && truthy v),
           State (post (net s) (load_request self cmd url)).2
                 (sent s ++ [load_request self cmd url])
                 (logs s ++ lg) (heap s)).
Proof.
  intros Hok Hurl Hv. unfold Player.load_item. rewrite bind_lift, Hurl.
  unfold Player.async_load_url, Player.async_query.
  destruct (async_query_run (_lms self) [VStr "playlist"; VStr cmd; url]
              (_id self) s Hok) as [lg Hrun].
  fold (load_request self cmd url) in Hrun. rewrite Hv in Hrun.
  rewrite (bind_ret_run _ _ _ _ _ Hrun).
  exists lg. destruct (truthy v), success; reflexivity.
Qed.

(** A loop over entries that have urls, when every sub-command is
    answered: all the requests are sent, in the order of the entries,
    and the flag is the conjunction of the results. *)
Lemma load_loop_run self cmd entries urls results success s :
  Server.credentials_ok (_lms self) = true →
  Forall2 url_of entries urls →
  (exchange (net s) (load_request self cmd <$> urls)).1 = Ret <$> results →
  ∃ lg, for_each (Player.load_item self cmd) success entries s =
          (Ret (success && forallb truthy results),
           State (exchange (net s) (load_request self cmd <$> urls)).2
                 (sent s ++ (load_request self cmd <$> urls))
                 (logs s ++ lg) (heap s)).
Proof.
  intros Hok Hall. revert results success s.
  induction Hall as [| e u es us Hu _ IH]; intros results success s Hex.
  - destruct results as [| v results]; [| by inversion Hex].
    exists []. simpl. rewrite !app_nil_r, andb_true_r. by destruct s.
  - rewrite fmap_cons, exchange_cons in Hex. rewrite fmap_cons, exchange_cons.
    destruct results as [| v results]; [by inversion Hex |].
    rewrite fmap_cons in Hex. injection Hex as Hv Hrs.
    destruct (load_item_run self cmd success e u v s Hok Hu Hv)
      as [lg1 Hitem].
    cbn [for_each]. unfold bind. rewrite Hitem.
    destruct (IH results (success && truthy v)
                (State (post (net s) (load_request self cmd u)).2
                       (sent s ++ [load_request self cmd u])
                       (logs s ++ lg1) (heap s)) Hrs) as [lg2 ->].
    exists (lg1 ++ lg2). cbn [net sent logs heap fst snd forallb].
    by rewrite <- !app_assoc, andb_assoc.
Qed.

(** Neither a turn nor a loop touches the list objects, whatever
    happens. *)
Lemma load_item_heap self cmd success entry s :
  heap (Player.load_item self cmd success entry s).2 = heap s.
Proof.
  unfold Player.load_item. rewrite bind_lift.
  destruct (getitem entry (VStr "url")) as [u | e]; [| reflexivity].
  unfold Player.async_load_url, Player.async_query, mbind, M_bind, bind.
  pose proof (async_query_heap (_lms self)
                [VStr "playlist"; VStr cmd; u] (_id self) s) as Hq.
  destruct (Server.async_query _ _ _ s) as [[r | e] s']; simpl in *;
    [| done].
  by destruct (negb (truthy r)).
Qed.

Lemma load_loop_heap self cmd entries success s :
  heap (for_each (Player.load_item self cmd) success entries s).2 = heap s.
Proof.
  revert success s. induction entries as [| e es IH]; intros success s;
    simpl; [done |].
  unfold bind.
  pose proof (load_item_heap self cmd success e s) as Hitem.
  destruct (Player.load_item self cmd success e s) as [[b | ex] s'];
    simpl in *; [| done].
  by rewrite IH.
Qed.

(** *** What a computation may change among the list objects *)

(** [m] changes no list object other than the one at [l]. *)
Definition touches_only {A} (l : loc) (m : M A) : Prop :=
  ∀ s k, k ≠ l → heap (m s).2 !! k = heap s !! k.

Lemma touches_only_bind {A B} l (m : M A) (k : A → M B) :
  touches_only l m → (∀ a, touches_only l (k a)) →
  touches_only l (x ← m; k x).
Proof.
  intros Hm Hk s j Hj. unfold mbind, M_bind, bind.
  specialize (Hm s j Hj). destruct (m s) as [[a | e] s']; simpl in *.
  - by rewrite Hk.
  - done.
Qed.

Lemma touches_only_mret {A} l (a : A) : touches_only l (mret a).
Proof. by intros s k _. Qed.

Lemma touches_only_read l : touches_only l (list_read l).
Proof. intros s k _. unfold list_read. by repeat case_match. Qed.

Lemma touches_only_pop0 l : touches_only l (list_pop0 l).
Proof.
  intros s k Hk. unfold list_pop0. repeat case_match; simpl; try done.
  by rewrite lookup_insert_ne.
Qed.

Lemma touches_only_item l self cmd success entry :
  touches_only l (Player.load_item self cmd success entry).
Proof. intros s k _. by rewrite load_item_heap. Qed.

Lemma touches_only_loop l self cmd entries success :
  touches_only l (for_each (Player.load_item self cmd) success entries).
Proof. intros s k _. by rewrite load_loop_heap. Qed.

(** *** The copy *)

Lemma list_copy_run ref xs s :
  heap s !! ref = Some xs →
  fresh (dom (heap s)) ≠ ref ∧
  list_copy ref s =
    (Ret (fresh (dom (heap s))),
     State (net s) (sent s) (logs s)
           (<[fresh (dom (heap s)) := xs]> (heap s))).
Proof.
  intros Href. split.
  - intros Heq. apply (is_fresh (dom (heap s))). rewrite Heq.
    apply elem_of_dom. by exists xs.
  - unfold list_copy. by rewrite Href.
Qed.

(** C10.  Whatever the mode and whatever happens during the call, the
    list object passed as [playlist_ref] holds after the call what it
    held before: the loop pops from a copy. *)
Theorem playlist_ref_untouched self playlist_ref cmd s :
  heap (Player.async_load_playlist self playlist_ref cmd s).2 !! playlist_ref
    = heap s !! playlist_ref.
Proof.
  unfold Player.async_load_playlist.
  destruct (heap s !! playlist_ref) as [xs |] eqn:Href.
  - destruct (list_copy_run playlist_ref xs s Href) as [Hfresh Hcopy].
    rewrite (bind_ret_run _ _ _ _ _ Hcopy).
    set (l := fresh (dom (heap s))) in *.
    match goal with
    | |- heap (?m ?s1).2 !! _ = _ =>
        assert (Hm : touches_only l m); [| rewrite (Hm s1 _ (not_eq_sym Hfresh))]
    end.
    + destruct (String.eqb cmd "insert").
      * repeat (apply touches_only_bind; [| intros ?]);
          auto using touches_only_read, touches_only_loop, touches_only_mret.
      * repeat (apply touches_only_bind; [| intros ?]);
          auto using touches_only_read, touches_only_loop, touches_only_mret.
        case_bool_decide; [| apply touches_only_mret].
        apply touches_only_bind; [apply touches_only_pop0 |].
        intros ?. apply touches_only_item.
    + simpl. by rewrite lookup_insert_ne, Href.
  - unfold list_copy, mbind, M_bind, bind. rewrite Href. simpl. exact Href.
Qed.

(** *** The whole load *)

Lemma requests_insert self urls :
  requests self "insert" urls = load_request self "insert" <$> reverse urls.
Proof. unfold requests, plan. simpl. by rewrite <- list_fmap_compose. Qed.

Lemma requests_play self cmd u us :
  cmd ∈ ["play"; "load"] →
  requests self cmd (u :: us) =
    load_request self "play" u :: (load_request self "add" <$> us).
Proof.
  intros Hcmd. unfold requests, plan.
  assert (String.eqb cmd "insert" = false) as ->.
  { apply String.eqb_neq. intros ->.
    apply list_elem_of_In in Hcmd as [Heq | [Heq | []]]; discriminate. }
  rewrite bool_decide_eq_true_2 by done.
  rewrite fmap_cons. by rewrite <- list_fmap_compose.
Qed.

Lemma requests_add self cmd urls :
  String.eqb cmd "insert" = false → cmd ∉ ["play"; "load"] →
  requests self cmd urls = load_request self "add" <$> urls.
Proof.
  intros Hins Hcmd. unfold requests, plan. rewrite Hins.
  rewrite bool_decide_eq_false_2 by done. by rewrite <- list_fmap_compose.
Qed.

(** The load, when the credentials are accepted, the entries have urls,
    the list is not empty in the modes that play its first entry, and
    every sub-command is answered: every request of the plan is sent, in
    order, and the call returns the conjunction of the results. *)
Lemma load_playlist_run self playlist_ref cmd entries urls results s :
  Server.credentials_ok (_lms self) = true →
  heap s !! playlist_ref = Some entries →
  Forall2 url_of entries urls →
  (cmd ∈ ["play"; "load"] → entries ≠ []) →
  (exchange (net s) (requests self cmd urls)).1 = Ret <$> results →
  ∃ lg hp,
    Player.async_load_playlist self playlist_ref cmd s =
      (Ret (VBool (forallb truthy results)),
       State (exchange (net s) (requests self cmd urls)).2
             (sent s ++ requests self cmd urls) (logs s ++ lg) hp).
Proof.
  intros Hok Href Hurls Hne Hex.
  destruct (list_copy_run playlist_ref entries s Href) as [_ Hcopy].
  unfold Player.async_load_playlist.
  rewrite (bind_ret_run _ _ _ _ _ Hcopy).
  set (l := fresh (dom (heap s))) in *.
  pose (s1 := State (net s) (sent s) (logs s) (<[l := entries]> (heap s))).
  destruct (String.eqb cmd "insert") eqn:Hins.
  - apply String.eqb_eq in Hins as ->.
    rewrite requests_insert in Hex |- *.
    erewrite bind_ret_run; last first.
    { unfold list_read. cbn [heap]. by rewrite lookup_insert_eq. }
    edestruct (load_loop_run self "insert" (reverse entries) (reverse urls)
                 results true s1) as [lg Hloop];
      [exact Hok | by apply Forall2_reverse | exact Hex |].
    erewrite bind_ret_run by exact Hloop.
    by exists lg, (<[l := entries]> (heap s)).
  - destruct (decide (cmd ∈ ["play"; "load"])) as [Hplay | Hadd].
    + rewrite bool_decide_eq_true_2 by done.
      destruct Hurls as [| e u es us Hu Hus]; [by destruct Hne |].
      rewrite (requests_play _ _ _ _ Hplay) in Hex |- *.
      rewrite exchange_cons in Hex. rewrite exchange_cons.
      destruct results as [| v results]; [by inversion Hex |].
      rewrite fmap_cons in Hex. injection Hex as Hv Hrs.
      rewrite bind_assoc_run.
      erewrite bind_ret_run; last first.
      { unfold list_pop0. cbn [heap]. by rewrite lookup_insert_eq. }
      edestruct (load_item_run self "play" true e u v
                   (State (net s) (sent s) (logs s)
                          (<[l := es]> (<[l := e :: es]> (heap s)))))
        as [lg1 Hitem]; [exact Hok | exact Hu | exact Hv |].
      erewrite bind_ret_run by exact Hitem.
      erewrite bind_ret_run; last first.
      { unfold list_read. cbn [heap]. by rewrite lookup_insert_eq. }
      edestruct (load_loop_run self "add" es us results (true && truthy v)
                   (State (post (net s) (load_request self "play" u)).2
                          (sent s ++ [load_request self "play" u])
                          (logs s ++ lg1)
                          (<[l := es]> (<[l := e :: es]> (heap s)))))
        as [lg2 Hloop]; [exact Hok | exact Hus | exact Hrs |].
      erewrite bind_ret_run by exact Hloop.
      eexists (lg1 ++ lg2), _. cbn [net sent logs heap fst snd forallb mret M_ret ret].
      by rewrite <- !app_assoc.
    + rewrite bool_decide_eq_false_2 by done.
      rewrite (requests_add _ _ _ Hins Hadd) in Hex |- *.
      rewrite bind_mret.
      erewrite bind_ret_run; last first.
      { unfold list_read. cbn [heap]. by rewrite lookup_insert_eq. }
      edestruct (load_loop_run self "add" entries urls results true s1)
        as [lg Hloop]; [exact Hok | exact Hurls | exact Hex |].
      erewrite bind_ret_run by exact Hloop.
      by exists lg, (<[l := entries]> (heap s)).
Qed.

Lemma exchange_length w rqs : length (exchange w rqs).1 = length rqs.
Proof.
  revert w. induction rqs as [| rq rqs IH]; intros w; [done |].
  rewrite exchange_cons. cbn [fst length]. by rewrite IH.
Qed.

Lemma requests_length self cmd urls :
  (cmd ∈ ["play"; "load"] → urls ≠ []) →
  length (requests self cmd urls) = length urls.
Proof.
  intros Hne. unfold requests, plan. rewrite length_fmap.
  destruct (String.eqb cmd "insert").
  - by rewrite length_fmap, length_reverse.
  - case_bool_decide as Hcmd; [| by rewrite length_fmap].
    destruct urls as [| u us]; [by destruct (Hne Hcmd) |].
    cbn [length]. by rewrite length_fmap.
Qed.

(** When the credentials are accepted, the entries have urls, the list
    is not empty in the modes [play] and [load], and every sub-command
    returns a result (a failure or not): one sub-command per entry is
    sent, whatever the earlier ones gave, and the call returns [True]
    exactly when every result is truthy. *)
Lemma load_playlist_conjunction
    self playlist_ref cmd entries urls results s :
  Server.credentials_ok (_lms self) = true →
  heap s !! playlist_ref = Some entries →
  Forall2 url_of entries urls →
  (cmd ∈ ["play"; "load"] → entries ≠ []) →
  (exchange (net s) (requests self cmd urls)).1 = Ret <$> results →
  ∃ success s',
    Player.async_load_playlist self playlist_ref cmd s
      = (Ret (VBool success), s')
    ∧ (success = true ↔ Forall (λ v, truthy v = true) results)
    ∧ length results = length entries
    ∧ sent s' = sent s ++ requests self cmd urls
    ∧ length (requests self cmd urls) = length entries.
Proof.
  intros Hok Href Hurls Hne Hex.
  destruct (load_playlist_run self playlist_ref cmd entries urls results s
              Hok Href Hurls Hne Hex) as (lg & hp & Hrun).
  assert (Hlen : length (requests self cmd urls) = length entries).
  { rewrite (Forall2_length _ _ _ Hurls). apply requests_length.
    intros Hcmd ->. apply (Hne Hcmd). by inversion Hurls. }
  eexists _, _. split; [exact Hrun |]. repeat split.
  - intros Hall. apply Forall_forall. intros v Hv.
    rewrite forallb_forall in Hall. by apply Hall, list_elem_of_In.
  - intros Hall. apply forallb_forall. intros v Hv.
    rewrite Forall_forall in Hall. by apply Hall, list_elem_of_In.
  - rewrite <- Hlen, <- (exchange_length (net s)), Hex.
    by rewrite length_fmap.
  - exact Hlen.
Qed.

(** The other modes take the empty list: no request, and [True]. *)
Lemma load_empty_playlist_other_modes self playlist_ref cmd s :
  cmd ∉ ["play"; "load"] →
  heap s !! playlist_ref = Some [] →
  let run := Player.async_load_playlist self playlist_ref cmd s in
  run.1 = Ret (VBool true) ∧ sent run.2 = sent s.
Proof.
  intros Hcmd Href run. subst run.
  destruct (list_copy_run playlist_ref [] s Href) as [_ Hcopy].
  unfold Player.async_load_playlist.
  rewrite (bind_ret_run _ _ _ _ _ Hcopy).
  rewrite bool_decide_eq_false_2 by done.
  destruct (String.eqb cmd "insert").
  - erewrite bind_ret_run; last first.
    { unfold list_read. cbn [heap]. by rewrite lookup_insert_eq. }
    done.
  - rewrite bind_mret.
    erewrite bind_ret_run; last first.
    { unfold list_read. cbn [heap]. by rewrite lookup_insert_eq. }
    done.
Qed.

(** C5, at the input where it fails.  In the modes [play] and [load]
    the first entry is popped off the copy without a look at its
    length: on the empty list [pop(0)] raises [IndexError] before any
    request is sent, where the conjunction of no result is [True]. *)
Theorem load_empty_playlist_raises self playlist_ref cmd s :
  cmd ∈ ["play"; "load"] →
  heap s !! playlist_ref = Some [] →
  let run := Player.async_load_playlist self playlist_ref cmd s in
  run.1 = Raise IndexError ∧ sent run.2 = sent s.
Proof.
  intros Hcmd Href run. subst run.
  destruct (list_copy_run playlist_ref [] s Href) as [_ Hcopy].
  unfold Player.async_load_playlist.
  rewrite (bind_ret_run _ _ _ _ _ Hcopy).
  assert (String.eqb cmd "insert" = false) as ->.
  { apply String.eqb_neq. intros ->.
    apply list_elem_of_In in Hcmd as [Heq | [Heq | []]]; discriminate. }
  rewrite bool_decide_eq_true_2 by done.
  rewrite bind_assoc_run.
  erewrite bind_raise_run; last first.
  { unfold list_pop0. cbn [heap]. by rewrite lookup_insert_eq. }
  done.
Qed.




End Playlist.

(** Three entries, and a server that answers the second sub-command
    with a time-out. *)
Definition track (url : string) : pyval := VDict {["url" := VStr url]}.

Definition three_tracks : list pyval := [track "a"; track "b"; track "c"].

Definition three_urls : list pyval := [VStr "a"; VStr "b"; VStr "c"].

Definition second_fails : list reply :=
  [Sample.ok (VDict ∅); PostRaise TimeoutError; Sample.ok (VDict ∅)].

Lemma three_tracks_urls : Forall2 url_of three_tracks three_urls.
Proof. repeat constructor. Qed.

Example load_playlist_after_failure :
  ∃ success s',
    @Player.async_load_playlist Sample.scripted (Sample.kitchen ∅) 0%nat "add"
      (Sample.start second_fails {[ 0%nat := three_tracks ]})
      = (Ret (VBool success), s')
    ∧ (success = true ↔
         Forall (λ v, truthy v = true) [VBool true; VBool false; VBool true])
    ∧ length [VBool true; VBool false; VBool true] = length three_tracks
    ∧ sent s' = [] ++ requests (Sample.kitchen ∅) "add" three_urls
    ∧ length (requests (Sample.kitchen ∅) "add" three_urls)
        = length three_tracks.
Proof.
  apply (@load_playlist_conjunction Sample.scripted (Sample.kitchen ∅) 0%nat "add"
           three_tracks three_urls [VBool true; VBool false; VBool true]
           (Sample.start second_fails {[ 0%nat := three_tracks ]})).
  - reflexivity.
  - reflexivity.
  - exact three_tracks_urls.
  - intros Hcmd. exfalso.
    apply list_elem_of_In in Hcmd as [Heq | [Heq | []]]; discriminate.
  - reflexivity.
Qed.

(** The empty list in mode [play]: [IndexError], nothing sent. *)
Lemma load_empty_playlist_raises_witness :
  let run := @Player.async_load_playlist Sample.scripted (Sample.kitchen ∅)
               0%nat "play" (Sample.start [] {[ 0%nat := [] ]}) in
  run.1 = Raise IndexError ∧ sent run.2 = [].
Proof.
  apply (@load_empty_playlist_raises Sample.scripted (Sample.kitchen ∅)
           0%nat "play" (Sample.start [] {[ 0%nat := [] ]})).
  - apply list_elem_of_In. left. reflexivity.
  - reflexivity.
Defined.

(** The same list in mode [add]: [True], nothing sent. *)
Example load_empty_playlist_add :
  (@Player.async_load_playlist Sample.scripted (Sample.kitchen ∅) 0%nat "add"
     (Sample.start [] {[ 0%nat := [] ]})).1
  = Ret (VBool true).
Proof. reflexivity. Qed.

(** A server that answers the second sub-command with an object that
    has no [result] *)
Definition second_malformed : list reply :=
  [Sample.ok (VDict ∅); Response 200 (BodyJson (VDict ∅));
   Sample.ok (VDict ∅)].

(** The second sub-command raises, and the third entry is not
    attempted. *)
Example load_playlist_breaks_off :
  let run := @Player.async_load_playlist Sample.scripted (Sample.kitchen ∅)
               0%nat "add"
               (Sample.start second_malformed {[ 0%nat := three_tracks ]}) in
  run.1 = Raise KeyError
  ∧ sent run.2 = load_request (Sample.kitchen ∅) "add"
                   <$> [VStr "a"; VStr "b"].
Proof. split; reflexivity. Qed.



(* ===================================================================== *)
(** * Further properties of the client *)
(* ===================================================================== *)

(** ** The result of a query *)

Section QueryResults.
Context `{Session}.

(** The replies that [async_query] takes for a failure: an exception of
    the transport, at the post or while the body is read, or a status
    other than 200. *)
Definition fails (r : reply) : bool :=
  match r with
  | PostRaise e => Server.communication_error e
  | Response status b =>
      negb (status =? 200) ||
      match b with
      | BodyRaise e => Server.communication_error e
      | BodyJson _ => false
      end
  end.

Lemma outcome_fails r : fails r = true → outcome r = Ret (VBool false).
Proof.
  unfold fails, outcome. destruct r as [e | status [data | e]].
  - by intros ->.
  - destruct (status =? 200); [discriminate | done].
  - destruct (status =? 200); simpl; [by intros -> | done].
Qed.

Lemma outcome_not_fails r v :
  fails r = false → outcome r = Ret v → truthy v = true.
Proof.
  unfold fails, outcome. destruct r as [e | status [data | e]].
  - by intros ->.
  - destruct (status =? 200); [| discriminate]. simpl. intros _.
    destruct (getitem data (VStr "result")) as [result | e]; [| discriminate].
    destruct (truthy result) eqn:Hr; by intros [= <-].
  - destruct (status =? 200); simpl; [by intros -> | discriminate].
Qed.

(** X1.  On a server whose credentials are accepted, a query whose
    exchange fails (time-out or connection error at the post or while
    the body is read, or a status other than 200) returns [False],
    raises nothing, and leaves one record of level ERROR in the log
    after the DEBUG record of the request. *)
Theorem query_failure_is_False self command player s :
  Server.credentials_ok self = true →
  fails (post (net s) (request_of self command player)).1 = true →
  ∃ msg,
    Server.async_query self command player s =
      (Ret (VBool false),
       State (post (net s) (request_of self command player)).2
             (sent s ++ [request_of self command player])
             (logs s ++ [(DEBUG, "URL: %s Data: %s"); (ERROR, msg)])
             (heap s)).
Proof.
  unfold Server.credentials_ok, Server.async_query, request_of, fails.
  destruct (Server.auth_of self) as [auth | e]; [intros _ | discriminate].
  unfold mbind, M_bind, bind, try_except, session_post, log, mret, M_ret,
    ret, response_json, raise, lift; simpl.
  destruct (post (net s) _) as [[e | status b] w]; simpl.
  - intros ->. simpl. eexists. rewrite <- ?app_assoc. reflexivity.
  - destruct (status =? 200); simpl.
    + destruct b as [data | e]; [discriminate |]. simpl.
      intros ->. simpl. eexists. rewrite <- ?app_assoc. reflexivity.
    + intros _. eexists. rewrite <- ?app_assoc. reflexivity.
Qed.

(** X2.  What a query returns is [False] when the exchange failed and a
    truthy value otherwise: an empty or null result comes back as
    [True], so a caller that tests [if not result] tests for failure. *)
Theorem query_result_False_or_truthy self command player s v :
  (Server.async_query self command player s).1 = Ret v →
  if fails (post (net s) (request_of self command player)).1
  then v = VBool false
  else truthy v = true.
Proof.
  intros Hv. pose proof (async_query_returns _ _ _ _ _ Hv) as Hok.
  rewrite async_query_result in Hv by done.
  destruct (fails _) eqn:Hf.
  - rewrite (outcome_fails _ Hf) in Hv. by injection Hv as <-.
  - by apply (outcome_not_fails _ _ Hf).
Qed.

(** The credentials that [BasicAuth] refuses: a username without a
    password, or with a colon in it. *)
Lemma credentials_refused self :
  Server.credentials_ok self = false ↔
  ∃ u, _username self = Some u
       ∧ (_password self = None ∨ String.index 0 ":" u ≠ None).
Proof.
  unfold Server.credentials_ok, Server.auth_of, BasicAuth.
  destruct (_username self) as [u |]; simpl.
  - destruct (_password self) as [pw |]; simpl.
    + destruct (String.index 0 ":" u) eqn:Hcolon; simpl.
      * split; [| done]. intros _. exists u. split; [done |].
        right. congruence.
      * split; [done |].
        intros (u' & [= <-] & [Hpw | Hu]); [done | congruence].
    + split; [| done]. intros _. exists u. split; [done |]. by left.
  - split; [done |]. by intros (u & Hu & _).
Qed.

(** X3.  On a server whose credentials are accepted, whatever the
    reply, and also when the call raises, a query posts exactly one
    request: there is no retry.  The request goes to
    [http://host:port/jsonrpc.js] and carries credentials exactly when
    a username is set.  On a server whose username comes without a
    password, or holds a colon, the call raises [ValueError] and nothing
    is logged or posted.  Either way the list objects are left alone. *)
Theorem query_posts_once self command player s :
  let s' := (Server.async_query self command player s).2 in
  let rq := request_of self command player in
  (if Server.credentials_ok self then
     sent s' = sent s ++ [rq]
     ∧ net s' = (post (net s) rq).2
     ∧ (req_auth rq = None ↔ _username self = None)
   else
     Server.async_query self command player s = (Raise ValueError, s))
  ∧ (Server.credentials_ok self = false ↔
     ∃ u, _username self = Some u
          ∧ (_password self = None ∨ String.index 0 ":" u ≠ None))
  ∧ heap s' = heap s
  ∧ req_url rq = "http://" +:+ host self +:+ ":" +:+ pretty (port self)
                   +:+ "/jsonrpc.js"
  ∧ getitem (req_data rq) (VStr "method") = Ret (VStr "slim.request")
  ∧ getitem (req_data rq) (VStr "params")
      = Ret (VList [player; VList command]).
Proof.
  intros s' rq. subst s' rq. rewrite async_query_heap.
  split; [| split; [apply credentials_refused | repeat split]].
  destruct (Server.credentials_ok self) eqn:Hok.
  - rewrite async_query_sent, async_query_net by done.
    split; [done |]. split; [done |].
    unfold Server.credentials_ok in Hok. unfold request_of.
    cbn [req_auth]. unfold Server.auth_of in *.
    destruct (_username self) as [u |]; [| done].
    destruct (BasicAuth u (_password self)); [| discriminate]. done.
  - by apply async_query_rejected.
Qed.

End QueryResults.

Lemma query_failure_is_False_witness :
  ∃ msg,
    @Server.async_query Sample.scripted Sample.lms [VStr "pause"] (VStr "")
      (Sample.start [Response 503 (BodyJson VNone)] ∅) =
    (Ret (VBool false),
     @State Sample.scripted []
       [request_of Sample.lms [VStr "pause"] (VStr "")]
       [(DEBUG, "URL: %s Data: %s"); (ERROR, msg)] ∅).
Proof.
  exact (@query_failure_is_False Sample.scripted Sample.lms [VStr "pause"]
           (VStr "") (Sample.start [Response 503 (BodyJson VNone)] ∅)
           eq_refl eq_refl).
Defined.

(** A login without a password: the call raises, and nothing is logged
    or posted. *)
Example query_refused_credentials :
  @Server.async_query Sample.scripted Sample.half_guarded [VStr "pause"]
    (VStr "") (Sample.start [Sample.ok (VDict ∅)] ∅)
  = (Raise ValueError, Sample.start [Sample.ok (VDict ∅)] ∅).
Proof. reflexivity. Qed.

(** A login with its password: the request carries both. *)
Example query_carries_credentials :
  sent (@Server.async_query Sample.scripted Sample.guarded [VStr "pause"]
          (VStr "") (Sample.start [Sample.ok (VDict ∅)] ∅)).2
  = [Request "http://lms.local:9000/jsonrpc.js"
       (Server.envelope (VStr "") [VStr "pause"])
       (Some (Credentials "user" "secret"))].
Proof. vm_compute. reflexivity. Qed.

(** An acknowledged command: the empty result comes back as [True]. *)
Lemma query_result_False_or_truthy_witness :
  (@Server.async_query Sample.scripted Sample.lms [VStr "pause"] (VStr "")
     (Sample.start [Sample.ok (VDict ∅)] ∅)).1 = Ret (VBool true)
  ∧ truthy (VBool true) = true.
Proof.
  split; [reflexivity |].
  exact (@query_result_False_or_truthy Sample.scripted Sample.lms
           [VStr "pause"] (VStr "")
           (Sample.start [Sample.ok (VDict ∅)] ∅) (VBool true) eq_refl).
Defined.

(** ** Devices: enumeration and lookup by id *)

Section DeviceLookup.
Context `{Builtins} `{Session}.

(** A query that is answered with a non-empty mapping returns it. *)
Lemma query_mapping_run self command player s body d :
  Server.credentials_ok self = true →
  (post (net s) (request_of self command player)).1
    = Response 200 (BodyJson (VDict body)) →
  body !! "result" = Some (VDict d) →
  truthy (VDict d) = true →
  ∃ lg, Server.async_query self command player s =
          (Ret (VDict d),
           State (post (net s) (request_of self command player)).2
                 (sent s ++ [request_of self command player])
                 (logs s ++ lg) (heap s)).
Proof.
  intros Hok Hpost Hbody Hd.
  destruct (async_query_run self command player s Hok) as [lg Hrun].
  exists lg. rewrite Hrun, Hpost. cbn [outcome Z.eqb negb Pos.eqb getitem].
  rewrite Hbody, Hd. reflexivity.
Qed.

Lemma query_failure_run self command player s :
  Server.credentials_ok self = true →
  fails (post (net s) (request_of self command player)).1 = true →
  ∃ lg, Server.async_query self command player s =
          (Ret (VBool false),
           State (post (net s) (request_of self command player)).2
                 (sent s ++ [request_of self command player])
                 (logs s ++ lg) (heap s)).
Proof.
  intros Hok Hf.
  destruct (async_query_run self command player s Hok) as [lg Hrun].
  exists lg. by rewrite Hrun, (outcome_fails _ Hf).
Qed.

(** X4.  On a server whose credentials are accepted: when the roster
    query fails, the enumeration returns [None] (not the empty list)
    after its one request, and creates no device. *)
Theorem get_players_failure_is_None self s :
  Server.credentials_ok self = true →
  fails (post (net s) (roster_request self)).1 = true →
  (Server.async_get_players self s).1 = Ret None
  ∧ sent (Server.async_get_players self s).2 = sent s ++ [roster_request self].
Proof.
  intros Hok Hf.
  destruct (query_failure_run self [VStr "players"; VStr "status"]
              (VStr "") s Hok Hf) as [lg Hq].
  unfold Server.async_get_players.
  rewrite (bind_ret_run _ _ _ _ _ Hq). split; reflexivity.
Qed.

(** The devices of a roster, built entry by entry *)
Fixpoint devices_of (self : server) (entries : list pyval)
    : res (list player) :=
  match entries with
  | [] => Ret []
  | entry :: entries' =>
      player_id ← getitem entry (VStr "playerid");
      name ← getitem entry (VStr "name");
      ps ← devices_of self entries';
      Ret (Player self player_id name ∅ :: ps)
  end.

Lemma devices_of_device_of self entries ps :
  devices_of self entries = Ret ps → Forall2 (device_of self) entries ps.
Proof.
  revert ps. induction entries as [| e es IH]; intros ps; simpl.
  - intros [= <-]. constructor.
  - destruct (getitem e (VStr "playerid")) as [i |] eqn:Hi; [| discriminate].
    destruct (getitem e (VStr "name")) as [n |] eqn:Hn; [| discriminate].
    simpl. destruct (devices_of self es) as [ps' |]; [| discriminate].
    simpl. intros [= <-]. constructor; [| by apply IH].
    by exists i, n.
Qed.

(** The body of the loop of [async_get_players] *)
Local Abbreviation roster_body self :=
  (λ (players : list player) (entry : pyval),
     player_id ← lift (getitem entry (VStr "playerid"));
     name ← lift (getitem entry (VStr "name"));
     p ← Server.Player_init self player_id name None;
     mret (players ++ [p])).

Lemma roster_step self acc entry player_id name s :
  getitem entry (VStr "playerid") = Ret player_id →
  getitem entry (VStr "name") = Ret name →
  roster_body self acc entry s =
    (Ret (acc ++ [Player self player_id name ∅]),
     State (net s) (sent s)
       (logs s ++ [(DEBUG, "Creating SqueezeBox object: %s, %s")]) (heap s)).
Proof.
  intros Hi Hn. cbv beta. rewrite bind_lift, Hi, bind_lift, Hn. reflexivity.
Qed.

Lemma roster_loop_effects self entries ps acc s :
  Forall2 (device_of self) entries ps →
  ∃ lg, for_each (roster_body self) acc entries s
        = (Ret (acc ++ ps), State (net s) (sent s) (logs s ++ lg) (heap s)).
Proof.
  intros Hall. revert acc s.
  induction Hall as [| e p es ps (i & n & Hi & Hn & ->) _ IH]; intros acc s.
  - exists []. simpl. rewrite !app_nil_r. by destruct s.
  - destruct (IH (acc ++ [Player self i n ∅])
                (State (net s) (sent s)
                   (logs s ++ [(DEBUG, "Creating SqueezeBox object: %s, %s")])
                   (heap s))) as [lg Hloop].
    exists ((DEBUG, "Creating SqueezeBox object: %s, %s") :: lg).
    cbn [for_each]. unfold bind at 1.
    rewrite (roster_step self acc e i n s Hi Hn), Hloop.
    cbn [net sent logs heap]. by rewrite <- !app_assoc.
Qed.

(** X5.  On a server whose credentials are accepted: when the roster
    query is answered with a non-empty mapping whose [players_loop] is
    a list of entries that each have a [playerid] and a [name], the
    enumeration returns one device per entry, in the order of the
    roster; each device belongs to this server, carries the id and the
    name of its entry and starts with an empty snapshot, whatever else
    the entry holds. *)
Theorem get_players_roster self s body d entries ps :
  Server.credentials_ok self = true →
  (post (net s) (roster_request self)).1
    = Response 200 (BodyJson (VDict body)) →
  body !! "result" = Some (VDict d) →
  d !! "players_loop" = Some (VList entries) →
  devices_of self entries = Ret ps →
  (Server.async_get_players self s).1 = Ret (Some ps)
  ∧ length ps = length entries
  ∧ Forall (λ p, _lms p = self ∧ _status p = ∅) ps
  ∧ sent (Server.async_get_players self s).2 = sent s ++ [roster_request self].
Proof.
  intros Hok Hpost Hbody Hloop Hps.
  assert (Hd : truthy (VDict d) = true).
  { simpl. destruct (size d) eqn:Hsz; [| done].
    apply map_size_empty_iff in Hsz. subst d. by rewrite lookup_empty in Hloop. }
  pose proof (devices_of_device_of _ _ _ Hps) as Hall.
  destruct (query_mapping_run self [VStr "players"; VStr "status"]
              (VStr "") s body d Hok Hpost Hbody Hd) as [lg Hq].
  fold (roster_request self) in Hq.
  unfold Server.async_get_players.
  rewrite (bind_ret_run _ _ _ _ _ Hq).
  change (Server.is_False (VDict d)) with false. cbv iota.
  rewrite bind_lift. unfold Server.get_method. rewrite Hloop.
  cbn [default from_option mbind res_mbind res_bind Server.iter id].
  edestruct (roster_loop_effects self entries ps []) as [lg' Hrun];
    [exact Hall |].
  rewrite (bind_ret_run _ _ _ _ _ Hrun). cbn [fst snd mret M_ret ret sent].
  repeat split.
  - symmetry. by apply Forall2_length in Hall.
  - clear -Hall. induction Hall as [| e p es ps' (i & n & _ & _ & ->) _ IH];
      constructor; [done | exact IH].
Qed.

(** The request of a lookup by id *)
Definition lookup_request (self : server) (player_id : pyval) : request :=
  request_of self [VStr "status"] player_id.

(** X6.  On a server whose credentials are accepted: a lookup by id
    that is answered with a mapping whose [player_name] is truthy
    returns a device with the id that was asked for, the name the
    server gave and an empty snapshot; the [name] argument plays no
    part. *)
Theorem lookup_by_id_found self player_id name s body d server_name :
  Server.credentials_ok self = true →
  truthy player_id = true →
  (post (net s) (lookup_request self player_id)).1
    = Response 200 (BodyJson (VDict body)) →
  body !! "result" = Some (VDict d) →
  d !! "player_name" = Some server_name →
  truthy server_name = true →
  (Server.async_get_player self player_id name s).1
    = Ret (Some (Player self player_id server_name ∅)).
Proof.
  intros Hok Hid Hpost Hbody Hname Htruthy.
  assert (Hd : truthy (VDict d) = true).
  { simpl. destruct (size d) eqn:Hsz; [| done].
    apply map_size_empty_iff in Hsz. subst d. by rewrite lookup_empty in Hname. }
  destruct (query_mapping_run self [VStr "status"] player_id s body d
              Hok Hpost Hbody Hd) as [lg Hq].
  unfold Server.async_get_player. rewrite Hid.
  rewrite (bind_ret_run _ _ _ _ _ Hq), Hd.
  rewrite bind_assoc_run, bind_lift. cbn [getitem]. rewrite Hname, Htruthy.
  reflexivity.
Qed.

(** X7.  On a server whose credentials are accepted: a lookup by id
    whose query fails returns [None] after that one request and a DEBUG
    record: there is no second attempt by name, also when a name is
    given. *)
Theorem lookup_by_id_no_failover self player_id name s :
  Server.credentials_ok self = true →
  truthy player_id = true →
  fails (post (net s) (lookup_request self player_id)).1 = true →
  let run := Server.async_get_player self player_id name s in
  run.1 = Ret None
  ∧ sent run.2 = sent s ++ [lookup_request self player_id]
  ∧ last (logs run.2) = Some (DEBUG, "Unable to find player with id: %s").
Proof.
  intros Hok Hid Hf run. subst run.
  destruct (query_failure_run self [VStr "status"] player_id s Hok Hf)
    as [lg Hq].
  unfold Server.async_get_player. rewrite Hid.
  rewrite (bind_ret_run _ _ _ _ _ Hq).
  change (truthy (VBool false)) with false. cbv iota.
  rewrite bind_mret. unfold mbind, M_bind, bind, log, mret, M_ret, ret.
  cbn [fst snd sent logs]. repeat split. apply last_snoc.
Qed.

(** X8.  On a server whose credentials are accepted: a lookup by id
    that is answered with a non-empty mapping without [player_name]
    raises [KeyError]: the missing key is not taken for an unknown
    device. *)
Theorem lookup_by_id_raises_without_name self player_id name s body d :
  Server.credentials_ok self = true →
  truthy player_id = true →
  (post (net s) (lookup_request self player_id)).1
    = Response 200 (BodyJson (VDict body)) →
  body !! "result" = Some (VDict d) →
  truthy (VDict d) = true →
  d !! "player_name" = None →
  (Server.async_get_player self player_id name s).1 = Raise KeyError.
Proof.
  intros Hok Hid Hpost Hbody Hd Hname.
  destruct (query_mapping_run self [VStr "status"] player_id s body d
              Hok Hpost Hbody Hd) as [lg Hq].
  unfold Server.async_get_player. rewrite Hid.
  rewrite (bind_ret_run _ _ _ _ _ Hq), Hd.
  rewrite bind_assoc_run, bind_lift. cbn [getitem]. rewrite Hname.
  reflexivity.
Qed.

(** X9.  A lookup with neither an id nor a name (both absent, or empty)
    returns [None], logs at level ERROR, and sends nothing. *)
Theorem lookup_without_id_or_name self player_id name s :
  truthy player_id = false →
  truthy name = false →
  Server.async_get_player self player_id name s =
    (Ret None,
     State (net s) (sent s)
       (logs s ++ [(ERROR, "get_player called without name or player_id")])
       (heap s)).
Proof.
  intros Hid Hname. unfold Server.async_get_player.
  rewrite Hid, Hname. reflexivity.
Qed.

End DeviceLookup.

(** Two devices on the roster; the entries hold more than the
    enumeration reads. *)
Definition roster_entry (player_id name : string) : pyval :=
  VDict {[ "playerid" := VStr player_id; "name" := VStr name;
           "connected" := VInt 1 ]}.

Definition two_devices : list pyval :=
  [roster_entry "00:04:20:aa:aa:aa" "Kitchen";
   roster_entry "00:04:20:bb:bb:bb" "Study"].

Definition roster_reply : reply :=
  Sample.ok (VDict {[ "count" := VInt 2; "players_loop" := VList two_devices ]}).

Lemma get_players_failure_is_None_witness :
  (@Server.async_get_players Sample.scripted Sample.lms
     (Sample.start [PostRaise TimeoutError] ∅)).1 = Ret None
  ∧ sent (@Server.async_get_players Sample.scripted Sample.lms
            (Sample.start [PostRaise TimeoutError] ∅)).2
    = [] ++ [roster_request Sample.lms].
Proof.
  exact (@get_players_failure_is_None Sample.scripted Sample.lms
           (Sample.start [PostRaise TimeoutError] ∅) eq_refl eq_refl).
Defined.

Lemma get_players_roster_witness :
  let run := @Server.async_get_players Sample.scripted Sample.lms
               (Sample.start [roster_reply] ∅) in
  let ps := [Player Sample.lms (VStr "00:04:20:aa:aa:aa") (VStr "Kitchen") ∅;
             Player Sample.lms (VStr "00:04:20:bb:bb:bb") (VStr "Study") ∅] in
  run.1 = Ret (Some ps)
  ∧ length ps = length two_devices
  ∧ Forall (λ p, _lms p = Sample.lms ∧ _status p = ∅) ps
  ∧ sent run.2 = [] ++ [roster_request Sample.lms].
Proof.
  exact (@get_players_roster Sample.scripted Sample.lms
           (Sample.start [roster_reply] ∅)
           {[ "result" := VDict {[ "count" := VInt 2;
                                   "players_loop" := VList two_devices ]} ]}
           {[ "count" := VInt 2; "players_loop" := VList two_devices ]}
           two_devices _ eq_refl eq_refl eq_refl eq_refl eq_refl).
Defined.

Definition status_reply : reply :=
  Sample.ok (VDict {[ "player_name" := VStr "Kitchen"; "mode" := VStr "stop" ]}).

Lemma lookup_by_id_found_witness :
  (@Server.async_get_player Sample.builtins Sample.scripted Sample.lms
     (VStr "00:04:20:aa:aa:aa") (VStr "some other name")
     (Sample.start [status_reply] ∅)).1
  = Ret (Some (Sample.kitchen ∅)).
Proof.
  exact (@lookup_by_id_found Sample.builtins Sample.scripted Sample.lms
           (VStr "00:04:20:aa:aa:aa") (VStr "some other name")
           (Sample.start [status_reply] ∅)
           {[ "result" := VDict {[ "player_name" := VStr "Kitchen";
                                   "mode" := VStr "stop" ]} ]}
           {[ "player_name" := VStr "Kitchen"; "mode" := VStr "stop" ]}
           (VStr "Kitchen") eq_refl eq_refl eq_refl eq_refl eq_refl
           eq_refl).
Defined.

Lemma lookup_by_id_no_failover_witness :
  let run := @Server.async_get_player Sample.builtins Sample.scripted
               Sample.lms (VStr "Kitchen") (VStr "Kitchen")
               (Sample.start [Response 404 (BodyJson VNone)] ∅) in
  run.1 = Ret None
  ∧ sent run.2 = [] ++ [lookup_request Sample.lms (VStr "Kitchen")]
  ∧ last (logs run.2) = Some (DEBUG, "Unable to find player with id: %s").
Proof.
  exact (@lookup_by_id_no_failover Sample.builtins Sample.scripted
           Sample.lms (VStr "Kitchen") (VStr "Kitchen")
           (Sample.start [Response 404 (BodyJson VNone)] ∅)
           eq_refl eq_refl eq_refl).
Defined.

Lemma lookup_by_id_raises_without_name_witness :
  (@Server.async_get_player Sample.builtins Sample.scripted Sample.lms
     (VStr "00:04:20:aa:aa:aa") VNone
     (Sample.start [Sample.ok (VDict {[ "mode" := VStr "stop" ]})] ∅)).1
  = Raise KeyError.
Proof.
  exact (@lookup_by_id_raises_without_name Sample.builtins Sample.scripted
           Sample.lms (VStr "00:04:20:aa:aa:aa") VNone
           (Sample.start [Sample.ok (VDict {[ "mode" := VStr "stop" ]})] ∅)
           {[ "result" := VDict {[ "mode" := VStr "stop" ]} ]}
           {[ "mode" := VStr "stop" ]}
           eq_refl eq_refl eq_refl eq_refl eq_refl eq_refl).
Defined.

Lemma lookup_without_id_or_name_witness :
  @Server.async_get_player Sample.builtins Sample.scripted Sample.lms
    (VStr "") VNone (Sample.start [] ∅)
  = (Ret None,
     @State Sample.scripted [] []
       [(ERROR, "get_player called without name or player_id")] ∅).
Proof.
  exact (@lookup_without_id_or_name Sample.builtins Sample.scripted
           Sample.lms (VStr "") VNone (Sample.start [] ∅) eq_refl eq_refl).
Defined.

(** ** Refresh, seen from the reply of the server *)

Section RefreshReplies.
Context `{Builtins} `{Session}.

(** X10.  On a server whose credentials are accepted: when the status
    query fails, the refresh returns [False] and the device is exactly
    what it was: the snapshot of the last successful refresh stays
    readable. *)
Theorem refresh_failure_keeps_device self s :
  Server.credentials_ok (_lms self) = true →
  fails (post (net s) (status_request self)).1 = true →
  (Player.async_update self s).1 = (Ret (VBool false), self).
Proof.
  intros Hok Hf. apply update_failure_keeps_snapshot.
  unfold Player.async_query. rewrite async_query_result by done.
  by apply outcome_fails.
Qed.

(** X11.  On a server whose credentials are accepted: when the status
    query is answered with a non-empty mapping, the refresh returns
    [True] and the snapshot is that mapping: a key of the old snapshot
    that the answer does not hold is gone, so the properties that test
    it are unknown again. *)
Theorem refresh_replaces_snapshot self s body d :
  Server.credentials_ok (_lms self) = true →
  (post (net s) (status_request self)).1
    = Response 200 (BodyJson (VDict body)) →
  body !! "result" = Some (VDict d) →
  truthy (VDict d) = true →
  let p := (Player.async_update self s).1.2 in
  (Player.async_update self s).1.1 = Ret (VBool true)
  ∧ _status p = d
  ∧ ∀ k, d !! k = None → Player.has p k = false.
Proof.
  intros Hok Hpost Hbody Hd p. subst p.
  destruct (query_mapping_run (_lms self) status_command (_id self) s body d
              Hok Hpost Hbody Hd) as [lg Hq].
  rewrite (update_replaces_snapshot self s d).
  - cbn [fst snd _status]. repeat split. intros k Hk.
    by apply has_None.
  - unfold Player.async_query. by rewrite Hq.
Qed.

(** X12.  A refresh never changes who the device is: whatever the reply,
    and also when the call raises, the server, the id and the name of
    the object are those it had, so [player_id], [name] and [image_url]
    read the same before and after. *)
Theorem refresh_keeps_identity self s :
  let p := (Player.async_update self s).1.2 in
  _lms p = _lms self ∧ _id p = _id self ∧ _name p = _name self
  ∧ Player.player_id p = Player.player_id self
  ∧ Player.name p = Player.name self
  ∧ Player.image_url p = Player.image_url self.
Proof.
  intros p.
  assert (Hid : _lms p = _lms self ∧ _id p = _id self ∧ _name p = _name self).
  { subst p. unfold Player.async_update.
    destruct (Player.async_query self _ s) as [[r | e] s']; [| done].
    destruct (Server.is_False r); [done |].
    cbn zeta. destruct (dict_update _ r) as [d [[] | e]]; done. }
  destruct Hid as (Hlms & Hi & Hn). repeat split; try done.
  - unfold Player.player_id. by rewrite Hi.
  - unfold Player.name. by rewrite Hn.
  - unfold Player.image_url. by rewrite Hlms, Hi.
Qed.

End RefreshReplies.

Lemma refresh_failure_keeps_device_witness :
  (@Player.async_update Sample.builtins Sample.scripted playing_player
     (Sample.start [PostRaise ClientError] ∅)).1
  = (Ret (VBool false), playing_player).
Proof.
  exact (@refresh_failure_keeps_device Sample.builtins Sample.scripted
           playing_player (Sample.start [PostRaise ClientError] ∅)
           eq_refl eq_refl).
Defined.

(** The device was playing; the answer holds the volume only. *)
Lemma refresh_replaces_snapshot_witness :
  let run := @Player.async_update Sample.builtins Sample.scripted
               playing_player
               (Sample.start [Sample.ok (VDict {[ "mixer volume" := VInt 40 ]})] ∅) in
  run.1.1 = Ret (VBool true)
  ∧ _status run.1.2 = {[ "mixer volume" := VInt 40 ]}
  ∧ ∀ k, ({[ "mixer volume" := VInt 40 ]} : gmap string pyval) !! k = None →
         Player.has run.1.2 k = false.
Proof.
  exact (@refresh_replaces_snapshot Sample.builtins Sample.scripted
           playing_player
           (Sample.start [Sample.ok (VDict {[ "mixer volume" := VInt 40 ]})] ∅)
           {[ "result" := VDict {[ "mixer volume" := VInt 40 ]} ]}
           {[ "mixer volume" := VInt 40 ]} eq_refl eq_refl eq_refl eq_refl).
Defined.

(** ** What no operation of a device does *)

Section OperationInvariants.
Context `{Builtins} `{Session}.

(** A request for this device: posted to its server, with the
    credentials of its server, and with its id as the player of the
    envelope *)
Definition addressed_to (self : player) (rq : request) : Prop :=
  ∃ command, rq = request_of (_lms self) command (_id self).

(** [m] appends to the requests sent, and what it appends is for
    [self]. *)
Definition sends_to {A} (self : player) (m : M A) : Prop :=
  ∀ s, ∃ new, sent (m s).2 = sent s ++ new ∧ Forall (addressed_to self) new.

Lemma sends_to_silent {A} self (m : M A) :
  (∀ s, sent (m s).2 = sent s) → sends_to self m.
Proof. intros Hm s. exists []. by rewrite app_nil_r, Hm. Qed.

Lemma sends_to_bind {A B} self (m : M A) (k : A → M B) :
  sends_to self m → (∀ a, sends_to self (k a)) →
  sends_to self (x ← m; k x).
Proof.
  intros Hm Hk s. unfold mbind, M_bind, bind.
  destruct (Hm s) as (new1 & Hs1 & Hall1).
  destruct (m s) as [[a | e] s1]; simpl in *.
  - destruct (Hk a s1) as (new2 & Hs2 & Hall2).
    exists (new1 ++ new2). rewrite Hs2, Hs1, app_assoc.
    split; [done | by apply Forall_app].
  - by exists new1.
Qed.

Lemma sends_to_mret {A} self (a : A) : sends_to self (mret a).
Proof. by apply sends_to_silent. Qed.

Lemma sends_to_lift {A} self (r : res A) : sends_to self (lift r).
Proof. by apply sends_to_silent. Qed.

Lemma sends_to_query self parameters :
  sends_to self (Player.async_query self parameters).
Proof.
  intros s. unfold Player.async_query.
  destruct (Server.credentials_ok (_lms self)) eqn:Hok.
  - exists [request_of (_lms self) parameters (_id self)].
    rewrite async_query_sent by done.
    split; [done |]. constructor; [by exists parameters | constructor].
  - exists []. rewrite async_query_rejected by done.
    split; [by rewrite app_nil_r | constructor].
Qed.

Lemma sends_to_item self cmd success entry :
  sends_to self (Player.load_item self cmd success entry).
Proof.
  unfold Player.load_item.
  apply sends_to_bind; [apply sends_to_lift | intros url].
  apply sends_to_bind; [apply sends_to_query | intros r].
  destruct (negb (truthy r)); apply sends_to_mret.
Qed.

Lemma sends_to_loop self cmd entries success :
  sends_to self (for_each (Player.load_item self cmd) success entries).
Proof.
  revert success. induction entries as [| e es IH]; intros success.
  - apply sends_to_mret.
  - cbn [for_each]. apply (sends_to_bind self); [apply sends_to_item | done].
Qed.

Lemma sends_to_load_playlist self playlist_ref cmd :
  sends_to self (Player.async_load_playlist self playlist_ref cmd).
Proof.
  unfold Player.async_load_playlist.
  apply sends_to_bind.
  { apply sends_to_silent. intros s. unfold list_copy. by case_match. }
  intros l. destruct (String.eqb cmd "insert").
  - apply sends_to_bind.
    { apply sends_to_silent. intros s. unfold list_read. by case_match. }
    intros items. apply sends_to_bind; [apply sends_to_loop | intros b].
    apply sends_to_mret.
  - apply sends_to_bind.
    { case_bool_decide; [| apply sends_to_mret].
      apply sends_to_bind; [| intros first; apply sends_to_item].
      apply sends_to_silent. intros s. unfold list_pop0.
      by repeat case_match. }
    intros b. apply sends_to_bind.
    { apply sends_to_silent. intros s. unfold list_read. by case_match. }
    intros items. apply sends_to_bind; [apply sends_to_loop | intros b'].
    apply sends_to_mret.
Qed.

Lemma keep_state self (m : M pyval) s :
  (Operations.keep self m s).2 = (m s).2.
Proof. unfold Operations.keep. by destruct (m s). Qed.

(** X13.  Every request that an operation of a device sends is for that
    device: it goes to the URL of its server with the credentials of its
    server, and the player of the envelope is its own id.  The requests
    sent before are kept, in order. *)
Theorem operations_address_own_device op self s :
  ∃ new,
    sent (Operations.perform op self s).2 = sent s ++ new
    ∧ Forall (addressed_to self) new.
Proof.
  assert (Hkeep : ∀ m, sends_to self m →
            ∃ new, sent (Operations.keep self m s).2 = sent s ++ new
                   ∧ Forall (addressed_to self) new).
  { intros m Hm. rewrite keep_state. apply Hm. }
  destruct op; cbn [Operations.perform];
    try (apply Hkeep; first [apply sends_to_query | apply sends_to_lift]).
  - rewrite update_effects. apply sends_to_query.
  - apply Hkeep. unfold Player.async_set_power.
    destruct (truthy power); apply sends_to_query.
  - apply Hkeep, sends_to_load_playlist.
  - apply Hkeep. unfold Player.async_set_shuffle.
    destruct (table_index _ _); [apply sends_to_query | apply sends_to_mret].
  - apply Hkeep. unfold Player.async_set_repeat.
    destruct (table_index _ _); [apply sends_to_query | apply sends_to_mret].
  - apply Hkeep. unfold Player.async_sync.
    apply sends_to_bind; [apply sends_to_lift | intros other].
    destruct (negb (truthy other)); [| apply sends_to_query].
    by apply sends_to_silent.
Qed.

Lemma load_playlist_keeps_objects self playlist_ref cmd s k xs :
  heap s !! k = Some xs →
  heap (Player.async_load_playlist self playlist_ref cmd s).2 !! k = Some xs.
Proof.
  intros Hk. unfold Player.async_load_playlist.
  destruct (heap s !! playlist_ref) as [ys |] eqn:Href.
  - destruct (list_copy_run playlist_ref ys s Href) as [_ Hcopy].
    rewrite (bind_ret_run _ _ _ _ _ Hcopy).
    set (l := fresh (dom (heap s))) in *.
    assert (Hkl : k ≠ l).
    { intros ->. apply (is_fresh (dom (heap s))). fold l.
      apply elem_of_dom. by exists xs. }
    match goal with
    | |- heap (?m ?s1).2 !! _ = _ =>
        assert (Hm : touches_only l m); [| rewrite (Hm s1 _ Hkl)]
    end.
    + destruct (String.eqb cmd "insert").
      * repeat (apply touches_only_bind; [| intros ?]);
          auto using touches_only_read, touches_only_loop, touches_only_mret.
      * repeat (apply touches_only_bind; [| intros ?]);
          auto using touches_only_read, touches_only_loop, touches_only_mret.
        case_bool_decide; [| apply touches_only_mret].
        apply touches_only_bind; [apply touches_only_pop0 |].
        intros ?. apply touches_only_item.
    + cbn [heap]. by rewrite lookup_insert_ne.
  - unfold list_copy, mbind, M_bind, bind. rewrite Href. exact Hk.
Qed.

(** X15.  No operation of a device changes a list object that exists
    when it is called: the queries do not touch the store, and the
    playlist loader pops only from the copy it makes. *)
Theorem operations_keep_list_objects op self s k xs :
  heap s !! k = Some xs →
  heap (Operations.perform op self s).2 !! k = Some xs.
Proof.
  intros Hk.
  assert (Hq : ∀ parameters,
            heap (Operations.keep self
                    (Player.async_query self parameters) s).2 !! k = Some xs).
  { intros ps. rewrite keep_state. unfold Player.async_query.
    by rewrite async_query_heap. }
  destruct op; cbn [Operations.perform]; try apply Hq.
  - by rewrite keep_state.
  - rewrite update_effects. unfold Player.async_query.
    by rewrite async_query_heap.
  - unfold Player.async_set_power. destruct (truthy power); apply Hq.
  - rewrite keep_state. by apply load_playlist_keeps_objects.
  - unfold Player.async_set_shuffle.
    destruct (table_index _ _); [apply Hq | by rewrite keep_state].
  - unfold Player.async_set_repeat.
    destruct (table_index _ _); [apply Hq | by rewrite keep_state].
  - rewrite keep_state. unfold Player.async_sync.
    rewrite bind_lift. destruct other_player as [p | v]; simpl.
    + destruct (negb (truthy (_id p))); [done |].
      unfold Player.async_query. by rewrite async_query_heap.
    + destruct (negb (truthy v)); [done |].
      unfold Player.async_query. by rewrite async_query_heap.
Qed.

End OperationInvariants.

Lemma operations_keep_list_objects_witness :
  heap (@Operations.perform Sample.builtins Sample.scripted
          (Operations.async_load_playlist 0%nat "play") playing_player
          (Sample.start Sample.all_accepted {[ 0%nat := three_tracks ]})).2
    !! 0%nat
  = Some three_tracks.
Proof.
  exact (@operations_keep_list_objects Sample.builtins Sample.scripted
           (Operations.async_load_playlist 0%nat "play") playing_player
           (Sample.start Sample.all_accepted {[ 0%nat := three_tracks ]})
           0%nat three_tracks eq_refl).
Defined.

(** ** Reading properties *)

Section Reading.
Context `{Builtins}.


Lemma append_if_returns group prop v :
  prop = Ret v →
  Player.append_if group prop
    = Ret (group ++ if truthy v then [v] else []).
Proof.
  intros ->. unfold Player.append_if. simpl.
  destruct (truthy v); [done | by rewrite app_nil_r].
Qed.


(** X17.  [volume], [duration] and [time] raise [TypeError] when the
    raw value is [null], a list or a mapping; on the same snapshot
    [muting] still returns. *)
Theorem numeric_reads_raise_on_non_number self raw :
  (raw = VNone ∨ (∃ l, raw = VList l) ∨ (∃ d, raw = VDict d)) →
  (_status self !! "mixer volume" = Some raw →
     Player.volume self = Raise TypeError
     ∧ ∃ b, Player.muting self = Ret (VBool b))
  ∧ (_status self !! "duration" = Some raw →
       Player.duration self = Raise TypeError)
  ∧ (_status self !! "time" = Some raw →
       Player.time self = Raise TypeError).
Proof.
  intros Hraw.
  assert (Hf : float raw = Raise TypeError).
  { destruct Hraw as [-> | [[l ->] | [d ->]]]; reflexivity. }
  split; [| split].
  - intros Hk. split.
    + unfold Player.volume.
      rewrite (has_Some _ _ _ Hk), (item_Some _ _ _ Hk). simpl. by rewrite Hf.
    + unfold Player.muting.
      rewrite (has_Some _ _ _ Hk), (item_Some _ _ _ Hk). by eexists.
  - intros Hk. unfold Player.duration.
    rewrite (has_Some _ _ _ Hk), (item_Some _ _ _ Hk). simpl. by rewrite Hf.
  - intros Hk. unfold Player.time.
    rewrite (has_Some _ _ _ Hk), (item_Some _ _ _ Hk). simpl. by rewrite Hf.
Qed.

(** *** The current track *)

(** X18.  When the snapshot holds a current index that reads as the
    integer [i] and a playlist with an entry at [i], the current track
    is that entry, also when the snapshot holds stream metadata. *)
Theorem current_track_of_playlist self raw i loop entry :
  _status self !! "playlist_cur_index" = Some raw →
  int raw = Ret i →
  _status self !! "playlist_loop" = Some (VList loop) →
  0 ≤ i →
  loop !! Z.to_nat i = Some entry →
  Player.current_track self = Ret entry.
Proof.
  intros Hraw Hint Hloop Hi Hentry. unfold Player.current_track.
  rewrite (item_Some _ _ _ Hraw), (item_Some _ _ _ Hloop).
  cbn [mbind res_mbind res_bind]. rewrite Hint.
  cbn [mbind res_mbind res_bind getitem]. unfold list_getitem, norm_index.
  apply lookup_lt_Some in Hentry as Hlt.
  rewrite (proj2 (Z.leb_le 0 i) Hi).
  rewrite (proj2 (Z.ltb_lt i (Z.of_nat (length loop)))) by lia.
  by rewrite Hentry.
Qed.

(** X19.  Without a current index, or with an index and no playlist, the
    current track is the stream metadata [remoteMeta] when the snapshot
    holds it and [None] otherwise. *)
Theorem current_track_falls_back self :
  (_status self !! "playlist_cur_index" = None
   ∨ ((∃ raw i, _status self !! "playlist_cur_index" = Some raw
                ∧ int raw = Ret i)
      ∧ _status self !! "playlist_loop" = None)) →
  Player.current_track self
    = Ret (default VNone (_status self !! "remoteMeta")).
Proof.
  intros Hcase.
  assert (Hmeta : Player.except_KeyError (Player.item self "remoteMeta")
                    (Ret VNone)
                  = Ret (default VNone (_status self !! "remoteMeta"))).
  { unfold Player.item. by destruct (_status self !! "remoteMeta"). }
  unfold Player.current_track. rewrite Hmeta.
  destruct Hcase as [Hnone | [(raw & i & Hraw & Hint) Hnone]].
  - by rewrite (item_None _ _ Hnone).
  - rewrite (item_Some _ _ _ Hraw), (item_None _ _ Hnone).
    cbn [mbind res_mbind res_bind]. by rewrite Hint.
Qed.

(** X20.  An index beyond the playlist raises [IndexError]: the
    handler takes [KeyError] only, so the stream metadata is not
    consulted, and the four track fields raise with it. *)
Theorem current_track_index_out_of_range self raw i loop :
  _status self !! "playlist_cur_index" = Some raw →
  int raw = Ret i →
  _status self !! "playlist_loop" = Some (VList loop) →
  Z.of_nat (length loop) ≤ i →
  Player.current_track self = Raise IndexError
  ∧ ∀ k, Player.track_field self k = Raise IndexError.
Proof.
  intros Hraw Hint Hloop Hi.
  assert (Htrack : Player.current_track self = Raise IndexError).
  { unfold Player.current_track.
    rewrite (item_Some _ _ _ Hraw), (item_Some _ _ _ Hloop).
    cbn [mbind res_mbind res_bind]. rewrite Hint.
    cbn [mbind res_mbind res_bind getitem]. unfold list_getitem, norm_index.
    rewrite (proj2 (Z.leb_le 0 i)) by lia.
    by rewrite (proj2 (Z.ltb_ge i (Z.of_nat (length loop)))) by lia. }
  split; [exact Htrack |]. intros k. unfold Player.track_field.
  by rewrite Htrack.
Qed.

(** X21.  When the current track is a mapping, each of [title],
    [artist], [album] and [url] is the value of its key in that
    mapping, or [None] when the mapping has no such key. *)
Theorem track_fields_of_mapping self d :
  Player.current_track self = Ret (VDict d) →
  Player.title self = Ret (default VNone (d !! "title"))
  ∧ Player.artist self = Ret (default VNone (d !! "artist"))
  ∧ Player.album self = Ret (default VNone (d !! "album"))
  ∧ Player.url self = Ret (default VNone (d !! "url")).
Proof.
  intros Htrack.
  assert (Hfield : ∀ k, Player.track_field self k
                        = Ret (default VNone (d !! k))).
  { intros k. unfold Player.track_field. rewrite Htrack.
    cbn [mbind res_mbind res_bind contains getitem].
    by destruct (d !! k). }
  repeat split; apply Hfield.
Qed.

End Reading.

(** A device of a server whose host opens a bracket that it does not
    close: the cover has no URL. *)
Example image_url_unmatched_bracket :
  @Player.image_url Sample.builtins
    (Player (Server "[fe80::1" Server.DEFAULT_PORT None None)
       (VStr "00:04:20:aa:aa:aa") (VStr "Kitchen") ∅)
  = Raise ValueError.
Proof. vm_compute. reflexivity. Qed.

Example image_url_of_kitchen :
  @Player.image_url Sample.builtins (Sample.kitchen ∅)
  = Ret (VStr ("http://lms.local:9000/music/current/cover.jpg"
                 +:+ "?player=00:04:20:aa:aa:aa")).
Proof. vm_compute. reflexivity. Qed.

(** A device whose numbers came as [null] *)
Definition null_player : player :=
  Sample.kitchen {[ "mixer volume" := VNone; "duration" := VNone;
                    "time" := VNone ]}.

Lemma numeric_reads_raise_on_non_number_witness :
  (@Player.volume Sample.builtins null_player = Raise TypeError
   ∧ ∃ b, @Player.muting Sample.builtins null_player = Ret (VBool b))
  ∧ @Player.duration Sample.builtins null_player = Raise TypeError
  ∧ @Player.time Sample.builtins null_player = Raise TypeError.
Proof.
  destruct (@numeric_reads_raise_on_non_number Sample.builtins null_player
              VNone (or_introl eq_refl)) as (Hv & Hd & Ht).
  exact (conj (Hv eq_refl) (conj (Hd eq_refl) (Ht eq_refl))).
Defined.

(** A device that plays the second of two tracks and also holds stream
    metadata *)
Definition stream_meta : pyval := VDict {[ "title" := VStr "Radio" ]}.

Definition second_track_player : player :=
  Sample.kitchen {[ "playlist_cur_index" := VInt 1;
                    "playlist_loop" := VList [track "a"; track "b"];
                    "remoteMeta" := stream_meta ]}.

Lemma current_track_of_playlist_witness :
  @Player.current_track Sample.builtins second_track_player = Ret (track "b").
Proof.
  exact (@current_track_of_playlist Sample.builtins second_track_player
           (VInt 1) 1 [track "a"; track "b"] (track "b")
           eq_refl eq_refl eq_refl ltac:(lia) eq_refl).
Defined.

(** A device that plays a stream: no index, no playlist *)
Definition stream_player : player :=
  Sample.kitchen {[ "remoteMeta" := stream_meta ]}.

Lemma current_track_falls_back_witness :
  @Player.current_track Sample.builtins stream_player = Ret stream_meta.
Proof.
  exact (@current_track_falls_back Sample.builtins stream_player
           (or_introl eq_refl)).
Defined.

(** A device whose index is stale: it points after the playlist *)
Definition stale_index_player : player :=
  Sample.kitchen {[ "playlist_cur_index" := VInt 5;
                    "playlist_loop" := VList [track "a"; track "b"];
                    "remoteMeta" := stream_meta ]}.

Lemma current_track_index_out_of_range_witness :
  @Player.current_track Sample.builtins stale_index_player = Raise IndexError
  ∧ ∀ k, @Player.track_field Sample.builtins stale_index_player k
         = Raise IndexError.
Proof.
  exact (@current_track_index_out_of_range Sample.builtins stale_index_player
           (VInt 5) 5 [track "a"; track "b"]
           eq_refl eq_refl eq_refl ltac:(simpl; lia)).
Defined.

Lemma track_fields_of_mapping_witness :
  @Player.title Sample.builtins stream_player = Ret (VStr "Radio")
  ∧ @Player.artist Sample.builtins stream_player = Ret VNone
  ∧ @Player.album Sample.builtins stream_player = Ret VNone
  ∧ @Player.url Sample.builtins stream_player = Ret VNone.
Proof.
  exact (@track_fields_of_mapping Sample.builtins stream_player
           {[ "title" := VStr "Radio" ]} eq_refl).
Defined.

(** ** Shuffle and repeat; the sync group *)

Section Modes.
Context `{Builtins} `{Session}.

(** The position of a name in a table is the index that reads the name
    back. *)
Lemma table_round_trip tbl mode i :
  table_index tbl (VStr mode) = Some i →
  0 ≤ i < Z.of_nat (length tbl) ∧ tbl !! Z.to_nat i = Some mode.
Proof.
  revert i. induction tbl as [| m tbl IH]; intros i; simpl; [done |].
  destruct (String.eqb mode m) eqn:Heq.
  - intros [= <-]. apply String.eqb_eq in Heq as ->. split; [lia | done].
  - destruct (table_index tbl (VStr mode)) as [j |]; [| done].
    simpl. intros [= <-]. destruct (IH j eq_refl) as [Hj Hlook].
    split; [lia |]. by rewrite Z2Nat.inj_succ by lia.
Qed.

Lemma table_getitem_index tbl mode i :
  table_index tbl (VStr mode) = Some i →
  table_getitem tbl (VInt i) = Ret (VStr mode).
Proof.
  intros [Hi Hlook]%table_round_trip.
  unfold table_getitem, list_getitem, norm_index.
  rewrite (proj2 (Z.leb_le 0 i)) by lia.
  rewrite (proj2 (Z.ltb_lt i (Z.of_nat (length tbl)))) by lia.
  by rewrite Hlook.
Qed.

Lemma table_index_None tbl v :
  (∀ mode, mode ∈ tbl → v ≠ VStr mode) → table_index tbl v = None.
Proof.
  induction tbl as [| m tbl IH]; intros Hv; simpl; [done |].
  destruct (eq_str v m) eqn:Heq.
  - destruct v; try discriminate. simpl in Heq.
    apply String.eqb_eq in Heq as ->. destruct (Hv m); [left | done].
  - rewrite IH; [done |]. intros mode Hin. apply Hv. by right.
Qed.

(** X22.  Shuffle and repeat round trip: setting the mode [mode] sends
    the index [i] of [mode] in the table of the modes, and a snapshot
    that holds [i] reads back as [mode]. *)
Theorem mode_round_trip self mode i :
  (table_index Player.SHUFFLE_MODE (VStr mode) = Some i →
     Player.async_set_shuffle self (VStr mode)
       = Player.async_query self [VStr "playlist"; VStr "shuffle"; VInt i]
     ∧ ∀ p, _status p !! "playlist shuffle" = Some (VInt i) →
            Player.shuffle p = Ret (VStr mode))
  ∧ (table_index Player.REPEAT_MODE (VStr mode) = Some i →
       Player.async_set_repeat self (VStr mode)
         = Player.async_query self [VStr "playlist"; VStr "repeat"; VInt i]
       ∧ ∀ p, _status p !! "playlist repeat" = Some (VInt i) →
              Player.repeat p = Ret (VStr mode)).
Proof.
  split; intros Hi.
  - split.
    + unfold Player.async_set_shuffle. by rewrite Hi.
    + intros p Hp. unfold Player.shuffle.
      rewrite (has_Some _ _ _ Hp), (item_Some _ _ _ Hp).
      cbn [mbind res_mbind res_bind]. by apply table_getitem_index.
  - split.
    + unfold Player.async_set_repeat. by rewrite Hi.
    + intros p Hp. unfold Player.repeat.
      rewrite (has_Some _ _ _ Hp), (item_Some _ _ _ Hp).
      cbn [mbind res_mbind res_bind]. by apply table_getitem_index.
Qed.

(** X23.  A mode that is not one of the three names of the table, in
    the exact spelling, is dropped in silence: the call returns [None]
    and sends no request. *)
Theorem unknown_mode_sends_nothing self v s :
  ((∀ mode, mode ∈ Player.SHUFFLE_MODE → v ≠ VStr mode) →
     Player.async_set_shuffle self v s = (Ret VNone, s))
  ∧ ((∀ mode, mode ∈ Player.REPEAT_MODE → v ≠ VStr mode) →
       Player.async_set_repeat self v s = (Ret VNone, s)).
Proof.
  split; intros Hv.
  - unfold Player.async_set_shuffle. by rewrite (table_index_None _ _ Hv).
  - unfold Player.async_set_repeat. by rewrite (table_index_None _ _ Hv).
Qed.

(** X24.  A snapshot whose shuffle or repeat index is an integer that
    is not one of [0], [1], [2] or their negative counterparts [-3],
    [-2], [-1] makes the property raise [IndexError]. *)
Theorem mode_index_out_of_range p i :
  (3 ≤ i ∨ i < -3) →
  (_status p !! "playlist shuffle" = Some (VInt i) →
     Player.shuffle p = Raise IndexError)
  ∧ (_status p !! "playlist repeat" = Some (VInt i) →
       Player.repeat p = Raise IndexError).
Proof.
  intros Hi.
  assert (Hidx : ∀ tbl, length tbl = 3%nat →
            table_getitem tbl (VInt i) = Raise IndexError).
  { intros tbl Hlen. unfold table_getitem, list_getitem, norm_index.
    rewrite Hlen. destruct Hi as [Hi | Hi].
    - rewrite (proj2 (Z.leb_le 0 i)) by lia.
      by rewrite (proj2 (Z.ltb_ge i (Z.of_nat 3))) by lia.
    - rewrite (proj2 (Z.leb_gt 0 i)) by lia.
      by rewrite (proj2 (Z.leb_gt 0 (i + Z.of_nat 3))) by lia. }
  split; intros Hp.
  - unfold Player.shuffle. rewrite (has_Some _ _ _ Hp), (item_Some _ _ _ Hp).
    cbn [mbind res_mbind res_bind]. by apply Hidx.
  - unfold Player.repeat. rewrite (has_Some _ _ _ Hp), (item_Some _ _ _ Hp).
    cbn [mbind res_mbind res_bind]. by apply Hidx.
Qed.

(** The player that [async_sync] is asked to join: the id of a [Player]
    object, or the id given *)
Definition sync_target (other_player : player + pyval) : pyval :=
  match other_player with
  | inl p => _id p
  | inr v => v
  end.

(** X25.  [async_sync] with a target whose id is falsy (no id, or the
    empty string) raises [RuntimeError] and sends nothing; with a truthy
    id it sends one [sync] command with that id, the same for a [Player]
    object and for its id. *)
Theorem sync_needs_a_target self other_player s :
  Player.async_sync self other_player s =
    if truthy (sync_target other_player)
    then Player.async_query self [VStr "sync"; sync_target other_player] s
    else (Raise RuntimeError, s).
Proof.
  unfold Player.async_sync. rewrite bind_lift.
  destruct other_player as [p | v]; simpl;
    by destruct (truthy _).
Qed.

(** X26.  The sync group never raises and always starts with the own
    id; the slaves value and then the master value follow, each as one
    element and only when it is present and truthy.  A device that is
    not synced has the group of its own id alone. *)
Theorem sync_group_members self :
  let optional k :=
    let v := default VNone (_status self !! k) in
    if truthy v then [v] else [] in
  Player.sync_group self
    = Ret (VList (_id self :: optional "sync_slaves" ++ optional "sync_master"))
  ∧ (_status self !! "sync_slaves" = None →
     _status self !! "sync_master" = None →
     Player.sync_group self = Ret (VList [_id self])).
Proof.
  intros optional.
  assert (Hkey : ∀ k,
            (if Player.has self k then Player.item self k else Ret VNone)
            = Ret (default VNone (_status self !! k))).
  { intros k. unfold Player.has, Player.item.
    by destruct (_status self !! k). }
  assert (Hgroup : Player.sync_group self
            = Ret (VList (_id self :: optional "sync_slaves"
                                    ++ optional "sync_master"))).
  { unfold Player.sync_group, Player.player_id, Player.sync_slaves,
      Player.sync_master.
    cbn [mbind res_mbind res_bind].
    rewrite (append_if_returns _ _ _ (Hkey "sync_slaves")).
    cbn [mbind res_mbind res_bind].
    rewrite (append_if_returns _ _ _ (Hkey "sync_master")).
    cbn [mbind res_mbind res_bind]. subst optional. cbv beta zeta.
    by rewrite <- app_assoc. }
  split; [exact Hgroup |]. intros Hs Hm. rewrite Hgroup.
  subst optional. cbv beta zeta. by rewrite Hs, Hm.
Qed.

End Modes.

Lemma mode_round_trip_witness :
  (@Player.async_set_shuffle Sample.scripted playing_player (VStr "album")
     = @Player.async_query Sample.scripted playing_player
         [VStr "playlist"; VStr "shuffle"; VInt 2]
   ∧ ∀ p, _status p !! "playlist shuffle" = Some (VInt 2) →
          Player.shuffle p = Ret (VStr "album"))
  ∧ (@Player.async_set_repeat Sample.scripted playing_player (VStr "playlist")
       = @Player.async_query Sample.scripted playing_player
           [VStr "playlist"; VStr "repeat"; VInt 2]
     ∧ ∀ p, _status p !! "playlist repeat" = Some (VInt 2) →
            Player.repeat p = Ret (VStr "playlist")).
Proof.
  split.
  - exact (proj1 (@mode_round_trip Sample.scripted playing_player "album" 2)
             eq_refl).
  - exact (proj2 (@mode_round_trip Sample.scripted playing_player "playlist" 2)
             eq_refl).
Defined.

Lemma unknown_mode_sends_nothing_witness :
  @Player.async_set_shuffle Sample.scripted playing_player (VStr "Album")
    (Sample.start [] ∅)
  = (Ret VNone, Sample.start [] ∅).
Proof.
  apply (proj1 (@unknown_mode_sends_nothing Sample.scripted playing_player
                  (VStr "Album") (Sample.start [] ∅))).
  intros mode Hin [= <-].
  apply list_elem_of_In in Hin. simpl in Hin.
  destruct Hin as [Heq | [Heq | [Heq | []]]]; discriminate.
Defined.

Lemma mode_index_out_of_range_witness :
  Player.shuffle (Sample.kitchen {[ "playlist shuffle" := VInt 3 ]})
  = Raise IndexError.
Proof.
  apply (proj1 (mode_index_out_of_range
                  (Sample.kitchen {[ "playlist shuffle" := VInt 3 ]}) 3
                  ltac:(lia))).
  reflexivity.
Defined.

(** ** More on the playlist loader *)

Section LoaderModes.
Context `{Session}.

(** X27.  The loader never sends the mode it was given unless the mode
    is [insert]: [load] is carried out exactly as [play], and any mode
    other than [insert], [play] and [load] exactly as [add], whatever
    the list holds and whatever the server answers. *)
Theorem load_playlist_modes self playlist_ref :
  Player.async_load_playlist self playlist_ref "load"
    = Player.async_load_playlist self playlist_ref "play"
  ∧ ∀ cmd, cmd ≠ "insert" → cmd ≠ "play" → cmd ≠ "load" →
      Player.async_load_playlist self playlist_ref cmd
        = Player.async_load_playlist self playlist_ref "add".
Proof.
  split; [reflexivity |]. intros cmd Hi Hp Hl.
  unfold Player.async_load_playlist.
  rewrite (proj2 (String.eqb_neq cmd "insert") Hi).
  rewrite bool_decide_eq_false_2; [reflexivity |].
  intros Hin. apply list_elem_of_In in Hin as [Heq | [Heq | []]]; congruence.
Qed.

Lemma for_each_app {A B} (body : B → A → M B) acc xs ys s :
  for_each body acc (xs ++ ys) s =
    (acc' ← for_each body acc xs; for_each body acc' ys) s.
Proof.
  revert acc s. induction xs as [| x xs IH]; intros acc s; [done |].
  cbn [app for_each]. unfold mbind, M_bind, bind in *.
  destruct (body acc x s) as [[acc' | e] s']; [apply IH | done].
Qed.

(** X28.  In a mode that adds, on a server whose credentials are
    accepted: when the entries before some entry have urls and their
    sub-commands each return a result, and reading the [url] of that
    entry raises ([KeyError] for a mapping without the key, [TypeError]
    for an entry that is not a mapping), the loader raises at that
    entry: the sub-commands of the entries before it have been sent and
    those of the entries after it are not, so the queue is left half
    loaded. *)
Theorem load_playlist_stops_at_missing_url
    self playlist_ref cmd before urls results bad e after s :
  Server.credentials_ok (_lms self) = true →
  cmd ≠ "insert" → cmd ≠ "play" → cmd ≠ "load" →
  heap s !! playlist_ref = Some (before ++ bad :: after) →
  Forall2 url_of before urls →
  getitem bad (VStr "url") = Raise e →
  (exchange (net s) (load_request self "add" <$> urls)).1 = Ret <$> results →
  let run := Player.async_load_playlist self playlist_ref cmd s in
  run.1 = Raise e
  ∧ sent run.2 = sent s ++ (load_request self "add" <$> urls).
Proof.
  intros Hok Hi Hp Hl Href Hurls Hbad Hex run. subst run.
  destruct (list_copy_run playlist_ref _ s Href) as [_ Hcopy].
  unfold Player.async_load_playlist.
  rewrite (bind_ret_run _ _ _ _ _ Hcopy).
  rewrite (proj2 (String.eqb_neq cmd "insert") Hi).
  rewrite bool_decide_eq_false_2; last first.
  { intros Hin. apply list_elem_of_In in Hin as [Heq | [Heq | []]]; congruence. }
  rewrite bind_mret.
  erewrite bind_ret_run; last first.
  { unfold list_read. cbn [heap]. by rewrite lookup_insert_eq. }
  set (s1 := State (net s) (sent s) (logs s)
               (<[fresh (dom (heap s)) := before ++ bad :: after]> (heap s))).
  destruct (load_loop_run self "add" before urls results true s1
              Hok Hurls Hex) as [lg Hloop].
  assert (Hrun : for_each (Player.load_item self "add") true
                   (before ++ bad :: after) s1
                 = (Raise e,
                    State (exchange (net s) (load_request self "add" <$> urls)).2
                          (sent s ++ (load_request self "add" <$> urls))
                          (logs s ++ lg) (heap s1))).
  { rewrite for_each_app, (bind_ret_run _ _ _ _ _ Hloop).
    cbn [for_each]. unfold bind, Player.load_item.
    by rewrite bind_lift, Hbad. }
  rewrite (bind_raise_run _ _ _ _ _ Hrun). split; reflexivity.
Qed.

End LoaderModes.

(** A mode that the protocol does not know is carried out as [add]. *)
Lemma load_playlist_modes_witness :
  @Player.async_load_playlist Sample.scripted playing_player 0%nat "append"
  = @Player.async_load_playlist Sample.scripted playing_player 0%nat "add".
Proof.
  exact (proj2 (@load_playlist_modes Sample.scripted playing_player 0%nat)
           "append" ltac:(discriminate) ltac:(discriminate)
           ltac:(discriminate)).
Defined.

(** The second of three entries has no url. *)
Lemma load_playlist_stops_at_missing_url_witness :
  let run := @Player.async_load_playlist Sample.scripted playing_player
               0%nat "add"
               (Sample.start Sample.all_accepted
                  {[ 0%nat := [track "a"] ++ VDict ∅ :: [track "c"] ]}) in
  run.1 = Raise KeyError
  ∧ sent run.2 = [] ++ (load_request playing_player "add" <$> [VStr "a"]).
Proof.
  apply (@load_playlist_stops_at_missing_url Sample.scripted playing_player
           0%nat "add" [track "a"] [VStr "a"] [VBool true] (VDict ∅)
           KeyError [track "c"]
           (Sample.start Sample.all_accepted
              {[ 0%nat := [track "a"] ++ VDict ∅ :: [track "c"] ]}));
    try discriminate; try reflexivity.
  repeat constructor.
Defined.

(** ** Integer fields through [float] *)

Section IntegerThroughFloat.
Context `{Builtins}.

(** X29.  The detour through [float] loses nothing on integers: for an
    integer raw value [n] below [2^53] in magnitude, [duration] and
    [time] return [n] itself and [volume] returns the absolute value
    of [n]. *)
Theorem integer_reads_are_exact self n :
  Z.abs n < 2 ^ 53 →
  (_status self !! "duration" = Some (VInt n) →
     Player.duration self = Ret (VInt n))
  ∧ (_status self !! "time" = Some (VInt n) →
       Player.time self = Ret (VInt n))
  ∧ (_status self !! "mixer volume" = Some (VInt n) →
       Player.volume self = Ret (VInt (Z.abs n))).
Proof.
  intros Hn. pose proof (int_float_exact_53 n Hn) as Hexact.
  assert (Hbind : ∀ k : Z → pyval,
            (f ← float (VInt n); m ← trunc f; Ret (k m)) = Ret (k n)).
  { intros k. cbn [float mbind res_mbind].
    destruct (float_of_Z n) as [f | e]; [| discriminate].
    cbn [mbind res_mbind res_bind] in *. by rewrite Hexact. }
  split; [| split]; intros Hk.
  - unfold Player.duration.
    rewrite (has_Some _ _ _ Hk), (item_Some _ _ _ Hk).
    exact (Hbind VInt).
  - unfold Player.time.
    rewrite (has_Some _ _ _ Hk), (item_Some _ _ _ Hk).
    exact (Hbind VInt).
  - unfold Player.volume.
    rewrite (has_Some _ _ _ Hk), (item_Some _ _ _ Hk).
    exact (Hbind (λ m, VInt (Z.abs m))).
Qed.

End IntegerThroughFloat.

(** A track of an hour and a quarter, forty minutes in *)
Lemma integer_reads_are_exact_witness :
  @Player.duration Sample.builtins
    (Sample.kitchen {[ "duration" := VInt 4500; "time" := VInt 2400 ]})
  = Ret (VInt 4500).
Proof.
  apply (proj1 (@integer_reads_are_exact Sample.builtins
                  (Sample.kitchen {[ "duration" := VInt 4500;
                                     "time" := VInt 2400 ]})
                  4500 ltac:(simpl; lia))).
  reflexivity.
Defined.
